(** * react-meteor-data: the MeteorDataManager of ReactMeteorData.jsx

    A shallow embedding of [MeteorDataManager] (constructor, [dispose],
    [calculateData], [updateData]) and of the lifecycle hooks of the
    [ReactMeteorData] mixin, together with the properties of the data
    manager that the specification states.

    JavaScript values are an inductive type; objects are finite maps from
    property names to values.  The code runs in a monad that threads the
    whole mutable world (component, manager, Tracker store, console) and
    records abrupt completion (a thrown exception): what was mutated
    before a [throw] stays mutated. *)

From stdpp Require Import base option list gmap strings pretty.
From Stdlib Require Import ZArith Lia.

Set Default Proof Using "Type".
Local Open Scope string_scope.
Local Open Scope list_scope.

(** ** JavaScript values *)

(** What an object is an instance of, as far as the code can tell:
    [typeof] separates functions from the rest, and
    [instanceof Package.mongo.Mongo.Cursor] separates cursors. *)
Inductive objkind := PlainObject | MongoCursor | FunctionObject.

(** The values that flow through the manager.  An object is the finite map
    of its enumerable string-keyed properties, the ones [for (key in o)],
    [Object.keys(o)] and [o[key]] of the source range over; what an object
    inherits from [Object.prototype] is not in the map, and [key in o]
    looks there too ([in_operator] below).  Numbers are integers: the code
    only looks at their truthiness. *)
#[warnings="-register-all"] Inductive jsval :=
  | JUndefined
  | JNull
  | JBool (b : bool)
  | JNum (n : Z)
  | JStr (s : string)
  | JObj (k : objkind) (props : gmap string jsval).

#[global] Instance objkind_eq_dec : EqDecision objkind.
Proof. solve_decision. Defined.

(** [{}] *)
Definition empty_object : jsval := JObj PlainObject ∅.

(** ToBoolean, as used by [if (x)], [!x] and [x && y]. *)
Definition truthy (v : jsval) : bool :=
  match v with
  | JUndefined | JNull => false
  | JBool b => b
  | JNum n => negb (Z.eqb n 0)
  | JStr s => negb (String.eqb s EmptyString)
  | JObj _ _ => true
  end.

(** [typeof v] *)
Definition typeof (v : jsval) : string :=
  match v with
  | JUndefined => "undefined"
  | JNull => "object"
  | JBool _ => "boolean"
  | JNum _ => "number"
  | JStr _ => "string"
  | JObj FunctionObject _ => "function"
  | JObj _ _ => "object"
  end.

(** [v === undefined] *)
Definition is_undefined (v : jsval) : bool :=
  match v with JUndefined => true | _ => false end.

(** [v instanceof Package.mongo.Mongo.Cursor] *)
Definition instanceof_Cursor (v : jsval) : bool :=
  match v with JObj MongoCursor _ => true | _ => false end.

(** The characters of a string, each as a one-character string value
    paired with its index written in decimal: what [for (key in s)] and
    [s[key]] give for a string primitive.  A character of the model stands
    for one UTF-16 code unit of the JavaScript string. *)
Fixpoint string_entries (i : nat) (s : string) : list (string * jsval) :=
  match s with
  | EmptyString => []
  | String c s' => (pretty i, JStr (String c EmptyString)) :: string_entries (S i) s'
  end.

(** The pairs [(key, v[key])] that [for (key in v)] visits.  [for-in] over
    [null], [undefined], a boolean or a number visits nothing.  JavaScript
    visits the keys of an object in the order of their insertion, which a
    finite map does not record; the list here is in the map's order.  The
    two loops of [updateData] and the loop of lines 98 to 106 come to the
    same whatever the order: the keys are distinct, every warning is the
    same message, and the exception of [key in newData] is the same at
    every key and is thrown before anything is deleted. *)
Definition enumerable_entries (v : jsval) : list (string * jsval) :=
  match v with
  | JObj _ props => map_to_list props
  | JStr s => string_entries 0 s
  | _ => []
  end.


(** ** Exceptions, the console, the mutator, the fetch function *)

Definition dquote : string := String (Ascii.ascii_of_nat 34) EmptyString.

(** The message of the error thrown by the [setState] guard. *)
Definition setState_guard_message : string :=
  "Can't call `setState` inside `getMeteorData` as this could "
  +:+ "cause an endless loop. To respond to Meteor data changing, "
  +:+ "consider making this component a " +:+ dquote +:+ "wrapper component"
  +:+ dquote +:+ " that "
  +:+ "only fetches data and passes it in as props to a child "
  +:+ "component. Then you can use `componentWillReceiveProps` in "
  +:+ "that child component.".

Definition expected_object_message : string :=
  "Expected object returned from getMeteorData".

Definition cursor_warning_message : string :=
  "Warning: you are returning a Mongo cursor from getMeteorData. "
  +:+ "This value will not be reactive. You probably want to call "
  +:+ "`.fetch()` on the cursor before returning it.".

Definition exception_label : string :=
  "Exception from withTracker getMeteorData function:".

(** What a [throw] carries.  The message of a TypeError that the engine
    throws is the engine's own wording (some engines name the key in it) and
    is not modelled. *)
Inductive exn :=
  | JsError (message : string)                  (* [new Error(message)] *)
  | TypeError_in (target : jsval)               (* [key in target], target not an object *)
  | TypeError_not_a_function (name : string)     (* calling a missing method *)
  | Thrown (v : jsval).                          (* [throw v] of user code *)

Inductive console_entry :=
  | ConsoleError (label : string) (e : exn)
  | ConsoleWarn (message : string).

(** What the [setState] slot of the component holds: a function of the
    host (React's own [setState], or whatever was put there), or the guard
    that [calculateData] installs during the first run. *)
Inductive mutator :=
  | HostFunction (id : nat)
  | GuardSetState.

#[global] Instance mutator_eq_dec : EqDecision mutator.
Proof. solve_decision. Defined.

(** The user-supplied [getMeteorData], as the tree of what it does with the
    world it can reach: read a reactive source (a tracked read), read
    [this.props] and [this.state], call [this.setState(arg)] (inside a
    [try], [handler] being its [catch]; a function that does not catch has
    [FThrow] there), and finally return a value or throw.  A function that
    returns an object it has returned before, changed in the meantime, is
    a [FReturn] of what the object holds now, after the
    [stored_snapshot_mutated] (below) that the change comes to. *)
Inductive fetch :=
  | FReturn (v : jsval)
  | FThrow (e : exn)
  | FReadSource (s : nat) (k : jsval → fetch)
  | FReadProps (k : jsval → jsval → fetch)
  | FSetState (arg : jsval) (k : fetch) (handler : exn → fetch).

(** ** The world *)

(** The component instance, as far as the manager touches it. *)
Record Component := mkComponent {
  props : jsval;
  state : jsval;
  getMeteorData : option fetch;
  data : gmap string jsval;
  failedToGetData : jsval;
  setState : mutator;
  setStateCalls : list (nat * jsval);
  forceUpdateCalls : nat;
}.

(** One Tracker computation. *)
Record Computation := mkComputation {
  stopped : bool;
  invalidated : bool;
  firstRun : bool;
  deps : gset nat;
}.

(** The Tracker: every computation created so far (a handle is an index),
    and [Tracker.currentComputation]. *)
Record TrackerState := mkTracker {
  computations : list Computation;
  currentComputation : option nat;
}.

(** The fields of [MeteorDataManager] other than [component]. *)
Record Manager := mkManager {
  computation : option nat;
  oldData : jsval;
}.

Record World := mkWorld {
  isServer : bool;               (* [Meteor.isServer] *)
  mongoLoaded : bool;            (* [Package.mongo && Package.mongo.Mongo] *)
  sources : gmap nat jsval;      (* the reactive sources' current values *)
  tracker : TrackerState;
  console : list console_entry;  (* oldest entry first *)
  component : Component;
  manager : Manager;
}.

Definition set_component (c : Component) (w : World) : World :=
  mkWorld (isServer w) (mongoLoaded w) (sources w) (tracker w) (console w) c (manager w).
Definition set_manager (m : Manager) (w : World) : World :=
  mkWorld (isServer w) (mongoLoaded w) (sources w) (tracker w) (console w) (component w) m.
Definition set_tracker (t : TrackerState) (w : World) : World :=
  mkWorld (isServer w) (mongoLoaded w) (sources w) t (console w) (component w) (manager w).
Definition set_console (l : list console_entry) (w : World) : World :=
  mkWorld (isServer w) (mongoLoaded w) (sources w) (tracker w) l (component w) (manager w).
Definition set_sources (s : gmap nat jsval) (w : World) : World :=
  mkWorld (isServer w) (mongoLoaded w) s (tracker w) (console w) (component w) (manager w).

Definition with_data (d : gmap string jsval) (c : Component) : Component :=
  mkComponent (props c) (state c) (getMeteorData c) d (failedToGetData c)
    (setState c) (setStateCalls c) (forceUpdateCalls c).
Definition with_failedToGetData (v : jsval) (c : Component) : Component :=
  mkComponent (props c) (state c) (getMeteorData c) (data c) v
    (setState c) (setStateCalls c) (forceUpdateCalls c).
Definition with_setState (f : mutator) (c : Component) : Component :=
  mkComponent (props c) (state c) (getMeteorData c) (data c) (failedToGetData c)
    f (setStateCalls c) (forceUpdateCalls c).
Definition with_setStateCalls (l : list (nat * jsval)) (c : Component) : Component :=
  mkComponent (props c) (state c) (getMeteorData c) (data c) (failedToGetData c)
    (setState c) l (forceUpdateCalls c).
Definition with_forceUpdateCalls (n : nat) (c : Component) : Component :=
  mkComponent (props c) (state c) (getMeteorData c) (data c) (failedToGetData c)
    (setState c) (setStateCalls c) n.
Definition with_props_state (p s : jsval) (c : Component) : Component :=
  mkComponent p s (getMeteorData c) (data c) (failedToGetData c)
    (setState c) (setStateCalls c) (forceUpdateCalls c).

Definition with_computation (h : option nat) (m : Manager) : Manager :=
  mkManager h (oldData m).
Definition with_oldData (v : jsval) (m : Manager) : Manager :=
  mkManager (computation m) v.

Definition with_computations (l : list Computation) (t : TrackerState) : TrackerState :=
  mkTracker l (currentComputation t).
Definition with_currentComputation (c : option nat) (t : TrackerState) : TrackerState :=
  mkTracker (computations t) c.

(** ** The monad: state, and abrupt completion that keeps the state *)

Inductive completion (A : Type) :=
  | Normal (a : A)
  | Abrupt (e : exn).
Arguments Normal {A} a.
Arguments Abrupt {A} e.

Definition M (A : Type) : Type := World → completion A * World.

#[global] Instance M_ret : MRet M := λ A a w, (Normal a, w).
#[global] Instance M_bind : MBind M := λ A B f m w,
  match m w with
  | (Normal a, w') => f a w'
  | (Abrupt e, w') => (Abrupt e, w')
  end.

Definition throw {A} (e : exn) : M A := λ w, (Abrupt e, w).
Definition get_world : M World := λ w, (Normal w, w).
Definition modify_world (f : World → World) : M unit := λ w, (Normal tt, f w).

(** [try { body } catch (e) { handler e }] *)
Definition try_catch {A} (body : M A) (handler : exn → M A) : M A := λ w,
  match body w with
  | (Normal a, w') => (Normal a, w')
  | (Abrupt e, w') => handler e w'
  end.

(** [try { body } finally { final }]: [final] runs either way; an exception
    of [final] replaces the completion of [body]. *)
Definition try_finally {A} (body : M A) (final : M unit) : M A := λ w,
  match body w with
  | (r, w') =>
      match final w' with
      | (Normal _, w'') => (r, w'')
      | (Abrupt e, w'') => (Abrupt e, w'')
      end
  end.

(** A loop body run for each element in turn; the first exception ends it. *)
Fixpoint for_each {A} (l : list A) (body : A → M unit) : M unit :=
  match l with
  | [] => mret tt
  | x :: l' => body x ;; for_each l' body
  end.

Definition modify_component (f : Component → Component) : M unit :=
  modify_world (λ w, set_component (f (component w)) w).
Definition modify_manager (f : Manager → Manager) : M unit :=
  modify_world (λ w, set_manager (f (manager w)) w).
Definition modify_tracker (f : TrackerState → TrackerState) : M unit :=
  modify_world (λ w, set_tracker (f (tracker w)) w).

(** [console.error(label, e)] and [console.warn(message)] *)
Definition console_error (label : string) (e : exn) : M unit :=
  modify_world (λ w, set_console (console w ++ [ConsoleError label e]) w).
Definition console_warn (message : string) : M unit :=
  modify_world (λ w, set_console (console w ++ [ConsoleWarn message]) w).

(** ** Tracker and the React host *)

(** Modelled from the spec: [Tracker] (package meteor/tracker) is an
    external collaborator, not part of this repository.  The spec gives a
    computation two states, running and stopped, a stopped one being inert;
    an invalidation is the notification that a source read by the
    computation has changed, and the body is re-executed at a flush.
    [invalidate_computation] is [Computation.invalidate]: it marks the
    computation and drops its dependencies. *)
Definition invalidate_computation (c : Computation) : Computation :=
  if invalidated c then c else mkComputation (stopped c) true (firstRun c) ∅.

(** Modelled from the spec: [Computation.stop] of the external Tracker; a
    stopped computation stays stopped, and stopping twice does nothing
    more. *)
Definition stop_computation (c : Computation) : Computation :=
  if stopped c then c
  else invalidate_computation (mkComputation true (invalidated c) (firstRun c) (deps c)).

Definition with_firstRun (b : bool) (c : Computation) : Computation :=
  mkComputation (stopped c) (invalidated c) b (deps c).
Definition with_invalidated (b : bool) (c : Computation) : Computation :=
  mkComputation (stopped c) b (firstRun c) (deps c).
Definition with_dep (s : nat) (c : Computation) : Computation :=
  mkComputation (stopped c) (invalidated c) (firstRun c) ({[s]} ∪ deps c).

Definition update_computation (h : nat) (f : Computation → Computation) : M unit :=
  modify_tracker (λ t, with_computations (alter f h (computations t)) t).

(** [c.stop()] *)
Definition Computation_stop (h : nat) : M unit :=
  update_computation h stop_computation.

Definition set_currentComputation (c : option nat) : M unit :=
  modify_tracker (with_currentComputation c).

(** Modelled from the spec: the tracked read of a reactive source of the
    external Tracker.  The read makes the current computation, if there is
    one, depend on the source, and gives the source's current value. *)
Definition read_source (s : nat) : M jsval :=
  w ← get_world;
  match currentComputation (tracker w) with
  | Some h => update_computation h (with_dep s)
  | None => mret tt
  end ;;
  mret (default JUndefined (sources w !! s)).

(** Modelled from the spec: a reactive source changes its value; every
    computation that read it is invalidated. *)
Definition source_changed (s : nat) (v : jsval) : M unit :=
  modify_world (λ w, set_sources (<[s := v]> (sources w)) w) ;;
  modify_tracker (λ t,
    with_computations
      ((λ c, if decide (s ∈ deps c) then invalidate_computation c else c)
         <$> computations t) t).

(** Modelled from the spec: one execution of a computation's body by the
    external Tracker, with the computation as the current one. *)
Definition Tracker_compute {A} (h : nat) (body : nat → M A) : M A :=
  update_computation h (with_invalidated false) ;;
  w ← get_world;
  set_currentComputation (Some h) ;;
  try_finally (body h) (set_currentComputation (currentComputation (tracker w))).

(** Modelled from the spec: [Tracker.autorun(body)] of the external
    Tracker creates a computation, runs the body once with the "first run"
    indicator set, and returns the handle.  The body of the source assigns
    the variable [data] of the enclosing call; here the body returns what
    it leaves in that variable, and [Tracker_autorun] hands it on next to
    the handle.  When the first run throws, the computation is stopped and
    the exception goes on to the caller. *)
Definition Tracker_autorun {A} (body : nat → M A) : M (nat * A) :=
  w ← get_world;
  let h := length (computations (tracker w)) in
  modify_tracker (λ t,
    with_computations (computations t ++ [mkComputation false false true ∅]) t) ;;
  r ← try_catch (Tracker_compute h body)
        (λ e, update_computation h (with_firstRun false) ;;
              Computation_stop h ;; throw e);
  update_computation h (with_firstRun false) ;;
  mret (h, r).

(** Modelled from the spec: [Tracker.nonreactive(f)] insulates [f] from
    the enclosing computation: [f] runs with no current computation. *)
Definition Tracker_nonreactive {A} (f : M A) : M A :=
  w ← get_world;
  set_currentComputation None ;;
  try_finally f (set_currentComputation (currentComputation (tracker w))).

Definition tracker_recompute_label : string :=
  "Exception from Tracker recompute function:".

(** Modelled from the spec: what a flush of the external Tracker does with
    one computation: the body is run again (not a first run) when the
    computation is invalidated and not stopped, and not otherwise; the
    Tracker logs what the body throws. *)
Definition Tracker_recompute (h : nat) (body : nat → M unit) : M unit :=
  w ← get_world;
  match computations (tracker w) !! h with
  | Some c =>
      if invalidated c && negb (stopped c)
      then try_catch (Tracker_compute h body)
             (λ e, console_error tracker_recompute_label e)
      else mret tt
  | None => mret tt
  end.

(** Modelled from the spec: [component.forceUpdate()] of the React host
    asks for a forced re-render; the requests are counted. *)
Definition forceUpdate : M unit :=
  modify_component (λ c, with_forceUpdateCalls (S (forceUpdateCalls c)) c).

(** [this.setState(arg)]: calls whatever the slot holds.  The guard is the
    arrow function of the source, lines 53 to 61. *)
Definition call_setState (arg : jsval) : M unit :=
  w ← get_world;
  match setState (component w) with
  | HostFunction id =>
      modify_component (λ c, with_setStateCalls (setStateCalls c ++ [(id, arg)]) c)
  | GuardSetState => throw (JsError setState_guard_message)
  end.

(** Running the user's function. *)
Fixpoint run_fetch (f : fetch) : M jsval :=
  match f with
  | FReturn v => mret v
  | FThrow e => throw e
  | FReadSource s k => v ← read_source s; run_fetch (k v)
  | FReadProps k =>
      w ← get_world; run_fetch (k (props (component w)) (state (component w)))
  | FSetState arg k handler =>
      try_catch (call_setState arg ;; mret None) (λ e, mret (Some e))
      ≫= λ r, match r with
               | None => run_fetch k
               | Some e => run_fetch (handler e)
               end
  end.

(** [component.getMeteorData()] *)
Definition call_getMeteorData : M jsval :=
  w ← get_world;
  match getMeteorData (component w) with
  | Some f => run_fetch f
  | None => throw (TypeError_not_a_function "getMeteorData")
  end.

(** ** MeteorDataManager *)

(** [new MeteorDataManager(component)] *)
Definition new_manager : Manager := mkManager None JNull.

(** [dispose()] *)
Definition dispose : M unit :=
  w ← get_world;
  match computation (manager w) with
  | Some h =>
      Computation_stop h ;;
      modify_manager (with_computation None)
  | None => mret tt
  end.

(** The first run of the autorun body, lines 51 to 79; the result is what
    the run leaves in the variable [data]. *)
Definition first_run : M jsval :=
  w ← get_world;
  let savedSetState := setState (component w) in
  try_finally
    (try_catch
       (modify_component (with_setState GuardSetState) ;;
        data ← call_getMeteorData;
        if negb (truthy data && String.eqb (typeof data) "object")
        then throw (JsError expected_object_message)
        else mret data)
       (λ e, console_error exception_label e ;; mret JUndefined))
    (modify_component (with_setState savedSetState)).

(** A later run of the autorun body, lines 89 to 92. *)
Definition later_run (c : nat) : M unit :=
  Computation_stop c ;;
  forceUpdate.

(** The function passed to [Tracker.autorun], lines 49 to 94.  [data] is
    what the variable [data] of the enclosing [calculateData] call holds
    when the body starts, the result is what it holds when the body ends. *)
Definition autorun_body (data : jsval) (c : nat) : M jsval :=
  w ← get_world;
  if default false (firstRun <$> computations (tracker w) !! c)
  then first_run
  else later_run c ;; mret data.

(** Lines 97 to 107: one warning for each cursor among the values. *)
Definition warn_cursors (data : jsval) : M unit :=
  w ← get_world;
  if truthy data && mongoLoaded w
  then for_each (enumerable_entries data)
         (λ kv, if instanceof_Cursor kv.2
                then console_warn cursor_warning_message
                else mret tt)
  else mret tt.

(** Lines 37 to 40. *)
Definition stop_existing_computation : M unit :=
  w ← get_world;
  match computation (manager w) with
  | Some h =>
      Computation_stop h ;;
      modify_manager (with_computation None)
  | None => mret tt
  end.

(** [calculateData()] *)
Definition calculateData : M jsval :=
  w ← get_world;
  match getMeteorData (component w) with
  | None => mret JNull
  | Some _ =>
      if isServer w then call_getMeteorData
      else
        stop_existing_computation ;;
        hd ← Tracker_nonreactive (Tracker_autorun (autorun_body JUndefined));
        modify_manager (with_computation (Some hd.1)) ;;
        warn_cursors hd.2 ;;
        mret hd.2
  end.

(** The names of the properties of [Object.prototype], which every object
    inherits: [key in o] is true for them whatever [o] holds. *)
Definition Object_prototype_names : list string :=
  ["constructor"; "__defineGetter__"; "__defineSetter__"; "hasOwnProperty";
   "__lookupGetter__"; "__lookupSetter__"; "isPrototypeOf";
   "propertyIsEnumerable"; "toString"; "valueOf"; "__proto__"; "toLocaleString"].

Definition inherited (key : string) : bool :=
  bool_decide (key ∈ Object_prototype_names).

(** [key in o] for an object [o] with the properties [props]. *)
Definition has_property (props : gmap string jsval) (key : string) : bool :=
  bool_decide (is_Some (props !! key)) || inherited key.

(** [key in target]: true for a property of the object and for a name it
    inherits from [Object.prototype]; a [TypeError] when [target] is not an
    object.  A cursor or a function inherits further names from its own
    class (the methods of [Mongo.Cursor], of [Function.prototype]), which
    are not listed here: the answer is exact for a plain object. *)
Definition in_operator (key : string) (target : jsval) : M bool :=
  match target with
  | JObj _ props => mret (has_property props key)
  | _ => throw (TypeError_in target)
  end.

(** [updateData(newData)] *)
Definition updateData (newData : jsval) : M unit :=
  w ← get_world;
  let oldData := oldData (manager w) in
  let failedToGetData := is_undefined newData in
  let newData := if failedToGetData then empty_object else newData in
  for_each (enumerable_entries newData)
    (λ kv, modify_component (λ c, with_data (<[kv.1 := kv.2]> (data c)) c)) ;;
  (if truthy oldData
   then for_each (enumerable_entries oldData)
          (λ kv, b ← in_operator kv.1 newData;
                 if negb b
                 then modify_component (λ c, with_data (delete kv.1 (data c)) c)
                 else mret tt)
   else mret tt) ;;
  modify_manager (with_oldData newData) ;;
  modify_component (with_failedToGetData (JBool failedToGetData)).

(** Line 134 stores the object it was given, not a copy of it:
    [this.oldData] and the caller's snapshot are one object.  Code that
    changes that object after the call (a fetch function that keeps one
    object and returns it again with other properties) changes what
    [this.oldData] holds; [props'] is what the object holds afterwards. *)
Definition stored_snapshot_mutated (props' : gmap string jsval) : M unit :=
  modify_manager (λ m,
    match oldData m with
    | JObj k _ => with_oldData (JObj k props') m
    | _ => m
    end).

(** ** The lifecycle hooks of the ReactMeteorData mixin *)

Definition componentWillMount : M unit :=
  modify_component (with_data ∅) ;;
  modify_manager (λ _, new_manager) ;;
  newData ← calculateData;
  updateData newData.

Definition componentWillUpdate (nextProps nextState : jsval) : M unit :=
  w ← get_world;
  let saveProps := props (component w) in
  let saveState := state (component w) in
  newData ← try_finally
    (modify_component (with_props_state nextProps nextState) ;;
     calculateData)
    (modify_component (with_props_state saveProps saveState));
  updateData newData.

Definition componentWillUnmount : M unit := dispose.

(** Running an operation: the completion, and the world it leaves. *)
Definition result {A} (m : M A) (w : World) : completion A := (m w).1.
Definition after {A} (m : M A) (w : World) : World := (m w).2.

(** ** Traces *)

(** What can happen to a mounted component and its manager: the host and
    the manager's callers call in, a reactive source changes, the Tracker
    flushes a computation. *)
Inductive event :=
  | CalculateData
  | UpdateData (newData : jsval)
  | Dispose
  | WillUpdate (nextProps nextState : jsval)
  | SourceChanged (s : nat) (v : jsval)
  | Flush (h : nat).

Definition run_event (e : event) : M unit :=
  match e with
  | CalculateData => calculateData ;; mret tt
  | UpdateData v => updateData v
  | Dispose => dispose
  | WillUpdate p s => componentWillUpdate p s
  | SourceChanged s v => source_changed s v
  | Flush h => Tracker_recompute h (λ c, autorun_body JUndefined c ;; mret tt)
  end.

(** An exception of one event is the caller's business; the world it
    leaves is where the next event starts. *)
Definition run_events (es : list event) (w : World) : World :=
  foldl (λ w e, after (run_event e) w) w es.

(** A component that has just been constructed, before any hook ran, in a
    Tracker that has no computation yet. *)
Definition fresh_component (f : option fetch) (p s : jsval) : Component :=
  mkComponent p s f ∅ JUndefined (HostFunction 0) [] 0.

Definition fresh_world (server mongo : bool) (srcs : gmap nat jsval)
    (f : option fetch) (p s : jsval) : World :=
  mkWorld server mongo srcs (mkTracker [] None) [] (fresh_component f p s) new_manager.

(** ** The two loops of [updateData] as functions on the [data] map *)

Definition merge_entries (l : list (string * jsval)) (d : gmap string jsval)
    : gmap string jsval :=
  foldl (λ d kv, <[kv.1 := kv.2]> d) d l.

Definition delete_absent (l : list (string * jsval)) (m d : gmap string jsval)
    : gmap string jsval :=
  foldl (λ d kv, if has_property m kv.1 then d else delete kv.1 d) d l.

(** The second loop: with a target that is not an object the first
    [key in newData] throws, before anything is deleted. *)
Definition delete_loop (l : list (string * jsval)) (target : jsval)
    (d : gmap string jsval) : completion unit * gmap string jsval :=
  match target with
  | JObj _ m => (Normal tt, delete_absent l m d)
  | _ =>
      match l with
      | [] => (Normal tt, d)
      | _ :: _ => (Abrupt (TypeError_in target), d)
      end
  end.

(** [key] is one of the names [for (key in v)] visits. *)
Definition mentions (v : jsval) (key : string) : Prop :=
  key ∈ (enumerable_entries v).*1.

#[global] Instance mentions_dec v key : Decision (mentions v key).
Proof. unfold mentions. apply _. Defined.

(** What one call of [updateData] does, in one equation. *)
Definition updateData_spec (v : jsval) (w : World) : completion unit * World :=
  let old := oldData (manager w) in
  let new' := if is_undefined v then empty_object else v in
  let d1 := merge_entries (enumerable_entries new') (data (component w)) in
  let rd := if truthy old then delete_loop (enumerable_entries old) new' d1
            else (Normal tt, d1) in
  match rd.1 with
  | Normal _ =>
      (Normal tt,
       set_component
         (with_failedToGetData (JBool (is_undefined v)) (with_data rd.2 (component w)))
         (set_manager (with_oldData new' (manager w)) w))
  | Abrupt e => (Abrupt e, set_component (with_data rd.2 (component w)) w)
  end.

(** ** What a run of the user's function comes to *)

(** The completion of a run of [f], the arguments of its calls of the
    host's [setState] that went through, and the sources it read, given
    the sources' values, [this.props], [this.state] and what the
    [setState] slot holds. *)
Fixpoint fetch_trace (srcs : gmap nat jsval) (p s : jsval) (mut : mutator)
    (f : fetch) : completion jsval * list jsval * list nat :=
  match f with
  | FReturn v => (Normal v, [], [])
  | FThrow e => (Abrupt e, [], [])
  | FReadSource x k =>
      let r := fetch_trace srcs p s mut (k (default JUndefined (srcs !! x))) in
      (r.1.1, r.1.2, x :: r.2)
  | FReadProps k => fetch_trace srcs p s mut (k p s)
  | FSetState arg k handler =>
      match mut with
      | HostFunction _ =>
          let r := fetch_trace srcs p s mut k in (r.1.1, arg :: r.1.2, r.2)
      | GuardSetState =>
          fetch_trace srcs p s mut (handler (JsError setState_guard_message))
      end
  end.

Definition host_id (mut : mutator) : nat :=
  match mut with HostFunction id => id | GuardSetState => 0 end.

(** The dependencies that tracked reads add to the current computation. *)
Definition track_reads (cur : option nat) (reads : list nat)
    (cs : list Computation) : list Computation :=
  match cur with
  | Some h => foldl (λ cs x, alter (with_dep x) h cs) cs reads
  | None => cs
  end.

(** The run of [f] from the world [w]. *)
Definition fetch_of (w : World) (f : fetch) : completion jsval * list jsval * list nat :=
  fetch_trace (sources w) (props (component w)) (state (component w))
    (setState (component w)) f.

Definition world_after_fetch (w : World) (f : fetch) : World :=
  let r := fetch_of w f in
  set_component
    (with_setStateCalls
       (setStateCalls (component w)
        ++ ((λ a, (host_id (setState (component w)), a)) <$> r.1.2))
       (component w))
    (set_tracker
       (with_computations
          (track_reads (currentComputation (tracker w)) r.2 (computations (tracker w)))
          (tracker w))
       w).

(** ** What [calculateData] comes to on the client *)

(** The test of line 64. *)
Definition is_mapping (v : jsval) : bool :=
  truthy v && String.eqb (typeof v) "object".

(** The world in which the user's function runs during a first run: the
    guard is in the [setState] slot. *)
Definition guarded (w : World) : World :=
  set_component (with_setState GuardSetState (component w)) w.

(** What the first run leaves in [data] and writes to the console, from
    the completion of the user's function. *)
Definition first_run_outcome (r : completion jsval) : jsval * list console_entry :=
  match r with
  | Normal v =>
      if is_mapping v then (v, [])
      else (JUndefined, [ConsoleError exception_label (JsError expected_object_message)])
  | Abrupt e => (JUndefined, [ConsoleError exception_label e])
  end.

Definition cursor_warnings (mongo : bool) (v : jsval) : list console_entry :=
  if truthy v && mongo
  then flat_map (λ kv : string * jsval,
                   if instanceof_Cursor kv.2
                   then [ConsoleWarn cursor_warning_message] else [])
         (enumerable_entries v)
  else [].

(** The computations after lines 37 to 40. *)
Definition stopped_existing (m : Manager) (cs : list Computation) : list Computation :=
  match computation m with
  | Some h => alter stop_computation h cs
  | None => cs
  end.

Definition tracked (reads : list nat) (c : Computation) : Computation :=
  foldl (λ c x, with_dep x c) c reads.

(** The computation that a [calculateData] call on the client leaves
    behind, from the sources its first run read. *)
Definition created_computation (reads : list nat) : Computation :=
  with_firstRun false (tracked reads (mkComputation false false true ∅)).

Definition calculateData_client (w : World) (f : fetch) : completion jsval * World :=
  let cs0 := stopped_existing (manager w) (computations (tracker w)) in
  let r := fetch_of (guarded w) f in
  let o := first_run_outcome r.1.1 in
  (Normal o.1,
   mkWorld (isServer w) (mongoLoaded w) (sources w)
     (mkTracker (cs0 ++ [created_computation r.2]) (currentComputation (tracker w)))
     (console w ++ o.2 ++ cursor_warnings (mongoLoaded w) o.1)
     (component w)
     (mkManager (Some (length cs0)) (oldData (manager w)))).

(** ** Live computations, and the invariant of the manager *)

(** The computation with handle [h] exists and is not stopped. *)
Definition live_in (cs : list Computation) (h : nat) : bool :=
  match cs !! h with
  | Some c => negb (stopped c)
  | None => false
  end.

Definition is_live (w : World) (h : nat) : bool :=
  live_in (computations (tracker w)) h.

(** What the manager's code can observe of a computation's life cycle. *)
Definition statuses (cs : list Computation) : list (bool * bool) :=
  (λ c, (stopped c, firstRun c)) <$> cs.

(** Between two events: a live computation is the one the manager holds,
    and no computation is in its first run. *)
Definition manager_inv (w : World) : Prop :=
  (∀ h, is_live w h = true → computation (manager w) = Some h)
  ∧ Forall (λ c, firstRun c = false) (computations (tracker w)).

(** What [componentWillUpdate] comes to. *)
Definition componentWillUpdate_spec (nextProps nextState : jsval) (w : World)
    : completion unit * World :=
  let w1 := set_component (with_props_state nextProps nextState (component w)) w in
  let rw := calculateData w1 in
  let w3 := set_component
              (with_props_state (props (component w)) (state (component w))
                 (component rw.2)) rw.2 in
  match rw.1 with
  | Normal newData => updateData newData w3
  | Abrupt e => (Abrupt e, w3)
  end.

(** What a flush comes to for a computation that is not in its first run. *)
Definition flush_spec (h : nat) (w : World) : World :=
  match computations (tracker w) !! h with
  | Some c =>
      if invalidated c && negb (stopped c)
      then set_component
             (with_forceUpdateCalls (S (forceUpdateCalls (component w))) (component w))
             (set_tracker
                (with_computations
                   (alter stop_computation h
                      (alter (with_invalidated false) h (computations (tracker w))))
                   (tracker w))
                w)
      else w
  | None => w
  end.

(** ** Predicates used in the statements *)

(** The environment flags and the fetch function are the same in both
    worlds. *)
Definition same_config (w w' : World) : Prop :=
  isServer w' = isServer w ∧ mongoLoaded w' = mongoLoaded w
  ∧ getMeteorData (component w') = getMeteorData (component w).

(** The events that call [calculateData]. *)
Definition recomputes (e : event) : bool :=
  match e with CalculateData | WillUpdate _ _ => true | _ => false end.

Definition is_flush (e : event) : bool :=
  match e with Flush _ => true | _ => false end.

(** On the server: no computation, and the manager holds none. *)
Definition server_inv (w : World) : Prop :=
  isServer w = true ∧ computations (tracker w) = [] ∧ computation (manager w) = None.

(** Without a fetch function: nothing in [data], no previous snapshot. *)
Definition no_fetch_inv (w : World) : Prop :=
  getMeteorData (component w) = None ∧ data (component w) = ∅
  ∧ oldData (manager w) = JNull.

(** The value is a mapping: an object that is not a function. *)
Definition is_snapshot (v : jsval) : Prop :=
  ∃ k m, v = JObj k m ∧ k ≠ FunctionObject.

(** The run of [f] with the guard in the [setState] slot, as in the first
    run of a [calculateData] call from [w], throws, or returns something
    that is not a mapping. *)
Definition fetch_fails (w : World) (f : fetch) : Prop :=
  match result (run_fetch f) (guarded w) with
  | Normal v => ¬ is_snapshot v
  | Abrupt _ => True
  end.

(** The error that the first run logs for a failed run of the function. *)
Definition logged_error (r : completion jsval) : exn :=
  match r with
  | Normal _ => JsError expected_object_message
  | Abrupt e => e
  end.

(** A fetch function that returns [{count: 1}] until source 0 is set, and
    [{name: "a"}] afterwards. *)
Definition count_then_name : fetch :=
  FReadSource 0 (λ v,
    FReturn (JObj PlainObject
               (if truthy v then {[ "name" := JStr "a" ]} else {[ "count" := JNum 1 ]}))).

(** ** [connect] and [render] *)

(** The two base classes of lines 184 to 187. *)
Inductive base_class := ReactComponent | ReactPureComponent.

(** What [connect] is given: a function (of the props), or an object with
    the function and [pure], which is [JUndefined] when the object has no
    such property. *)
Inductive connect_options :=
  | OptionsFunction (g : jsval → fetch)
  | OptionsObject (g : jsval → fetch) (pure : jsval).

(** The class [ReactMeteorDataComponent] of lines 201 to 212: its base
    class and its [getMeteorData] method. *)
Record component_class := mkClass {
  base : base_class;
  class_getMeteorData : fetch;
}.

(** Lines 190 to 197: the options a function stands for, and the default of
    [pure], which a destructuring applies to [undefined] only. *)
Definition expand_options (options : connect_options) : (jsval → fetch) * jsval :=
  match options with
  | OptionsFunction g => (g, JUndefined)
  | OptionsObject g pure => (g, pure)
  end.

(** [connect(options)], up to the component it wraps. *)
Definition connect (options : connect_options) : component_class :=
  let expandedOptions := expand_options options in
  let getMeteorData := expandedOptions.1 in
  let pure := if is_undefined expandedOptions.2 then JBool true else expandedOptions.2 in
  mkClass (if truthy pure then ReactPureComponent else ReactComponent)
    (FReadProps (λ p _, getMeteorData p)).

(** What [render] returns: [<span/>], or the wrapped component with its
    attributes. *)
Inductive element :=
  | SpanElement
  | WrappedElement (attributes : gmap string jsval).

(** [{...this.props} {...this.data}]: the later spread wins. *)
Definition spread (p : jsval) (d : gmap string jsval) : gmap string jsval :=
  merge_entries (map_to_list d) (merge_entries (enumerable_entries p) ∅).

(** [render()], lines 205 to 211. *)
Definition render (c : Component) : element :=
  if truthy (failedToGetData c) then SpanElement
  else WrappedElement (spread (props c) (data c)).

(** ** Predicates used in the further properties *)

Definition is_plain_primitive (v : jsval) : bool :=
  match v with JNull | JBool _ | JNum _ => true | _ => false end.

(** What [data] becomes when the mapping [m] is merged over [d], [old]
    being the stored previous snapshot. *)
Definition patched (old : jsval) (m d : gmap string jsval) : gmap string jsval :=
  if truthy old then delete_absent (enumerable_entries old) m (m ∪ d) else m ∪ d.

(** How many of the values that [for-in] visits in [v] are cursors. *)
Definition cursor_count (v : jsval) : nat :=
  length (filter (λ kv : string * jsval, instanceof_Cursor kv.2 = true)
            (enumerable_entries v)).

(** The world in which [componentWillUpdate] runs [calculateData]. *)
Definition with_next (nextProps nextState : jsval) (w : World) : World :=
  set_component (with_props_state nextProps nextState (component w)) w.

(** The Tracker would run the body of computation [h] again at a flush:
    the computation is invalidated and not stopped. *)
Definition pending (w : World) (h : nat) : bool :=
  match computations (tracker w) !! h with
  | Some c => invalidated c && negb (stopped c)
  | None => false
  end.

(** The sources that the run of [f] reads during a first run from [w]. *)
Definition sources_read (w : World) (f : fetch) : list nat :=
  (fetch_of (guarded w) f).2.

(** The events through which the manager writes [data]. *)
Definition merges (e : event) : bool :=
  match e with UpdateData _ | WillUpdate _ _ => true | _ => false end.

Definition is_updateData (e : event) : bool :=
  match e with UpdateData _ => true | _ => false end.

Definition same_merge_state (w w' : World) : Prop :=
  data (component w') = data (component w)
  ∧ failedToGetData (component w') = failedToGetData (component w)
  ∧ oldData (manager w') = oldData (manager w).

(** A fetch function that never returns a cursor as the snapshot itself
    (a cursor among the values of the snapshot is another matter). *)
Inductive plain_fetch : fetch → Prop :=
  | plain_FReturn v : instanceof_Cursor v = false → plain_fetch (FReturn v)
  | plain_FThrow e : plain_fetch (FThrow e)
  | plain_FReadSource x k : (∀ v, plain_fetch (k v)) → plain_fetch (FReadSource x k)
  | plain_FReadProps k : (∀ p s, plain_fetch (k p s)) → plain_fetch (FReadProps k)
  | plain_FSetState arg k handler :
      plain_fetch k → (∀ e, plain_fetch (handler e)) →
      plain_fetch (FSetState arg k handler).

(** [data] holds what the last merge was given, at every key that is not
    the name of a property inherited from [Object.prototype]. *)
Definition data_is_last_snapshot (w : World) : Prop :=
  (oldData (manager w) = JNull ∧ data (component w) = ∅)
  ∨ ∃ m, oldData (manager w) = JObj PlainObject m
         ∧ ∀ key, inherited key = false → data (component w) !! key = m !! key.

Definition client_inv (w : World) : Prop :=
  manager_inv w ∧ isServer w = false
  ∧ (getMeteorData (component w) = None → oldData (manager w) = JNull)
  ∧ (∀ g, getMeteorData (component w) = Some g → plain_fetch g)
  ∧ data_is_last_snapshot w
  ∧ (failedToGetData (component w) = JBool true →
     ∀ key, inherited key = false → data (component w) !! key = None).

Definition snapshot_props (v : jsval) : gmap string jsval :=
  match v with JObj _ m => m | _ => ∅ end.

(** * Properties *)

Example enumerable_entries_string :
  enumerable_entries (JStr "ab") = [("0", JStr "a"); ("1", JStr "b")].
Proof. reflexivity. Qed.

(** ** The scenarios of the specification, run *)

Example scenario_count_then_name :
  let w1 := after componentWillMount
              (fresh_world false false ∅ (Some count_then_name) JNull JNull) in
  let w2 := run_events [SourceChanged 0 (JBool true); Flush 0] w1 in
  let w3 := after (componentWillUpdate JNull JNull) w2 in
  data (component w1) = {[ "count" := JNum 1 ]} ∧
  failedToGetData (component w1) = JBool false ∧
  forceUpdateCalls (component w2) = 1%nat ∧
  data (component w3) = {[ "name" := JStr "a" ]} ∧
  failedToGetData (component w3) = JBool false ∧
  stopped <$> computations (tracker w3) = [true; false].
Proof. by vm_compute. Qed.

Example scenario_fetch_throws :
  let f := FReadSource 0 (λ v,
             if truthy v then FThrow (Thrown (JStr "down"))
             else FReturn (JObj PlainObject {[ "count" := JNum 1 ]})) in
  let w1 := after componentWillMount (fresh_world false false ∅ (Some f) JNull JNull) in
  let w2 := run_events [SourceChanged 0 (JBool true); Flush 0; WillUpdate JNull JNull] w1 in
  data (component w1) = {[ "count" := JNum 1 ]} ∧
  data (component w2) = ∅ ∧
  failedToGetData (component w2) = JBool true ∧
  console w2 = [ConsoleError exception_label (Thrown (JStr "down"))].
Proof. by vm_compute. Qed.

(** Line 129 finds the names that every object inherits: a key of the
    previous snapshot with such a name is not deleted. *)
Example inherited_name_is_kept :
  let w0 := fresh_world false false ∅ None JNull JNull in
  let w1 := after (updateData (JObj PlainObject {[ "toString" := JNum 1; "a" := JNum 2 ]}))
              w0 in
  let w2 := after (updateData empty_object) w1 in
  data (component w2) = {[ "toString" := JNum 1 ]}.
Proof. by vm_compute. Qed.

Example inherited_name_is_kept_by_the_hooks :
  let f := FReadSource 0 (λ v,
             FReturn (JObj PlainObject
                        (if truthy v then {[ "name" := JStr "a" ]}
                         else {[ "constructor" := JNum 1 ]}))) in
  let w := run_events [WillUpdate JNull JNull; SourceChanged 0 (JBool true);
                       Flush 0; WillUpdate JNull JNull]
             (fresh_world false false ∅ (Some f) JNull JNull) in
  data (component w) = {[ "constructor" := JNum 1; "name" := JStr "a" ]}.
Proof. by vm_compute. Qed.

(** The stored snapshot is the caller's object: when the object that was
    merged as [{a: 1}] has become [{b: 2}] and is merged again, nothing is
    deleted. *)
Example same_object_merged_again :
  let w0 := fresh_world false false ∅ None JNull JNull in
  let w1 := after (updateData (JObj PlainObject {[ "a" := JNum 1 ]})) w0 in
  let w2 := after (stored_snapshot_mutated {[ "b" := JNum 2 ]}) w1 in
  let w3 := after (updateData (JObj PlainObject {[ "b" := JNum 2 ]})) w2 in
  data (component w3) = {[ "a" := JNum 1; "b" := JNum 2 ]}.
Proof. by vm_compute. Qed.

Example scenario_server :
  let w0 := fresh_world true false ∅ (Some count_then_name) JNull JNull in
  let w2 := after calculateData (after calculateData w0) in
  result calculateData w0 = Normal (JObj PlainObject {[ "count" := JNum 1 ]}) ∧
  tracker w2 = tracker w0 ∧ manager w2 = manager w0.
Proof. by vm_compute. Qed.

Section world_lemmas.

Lemma set_component_id w : set_component (component w) w = w.
Proof. by destruct w. Qed.

Lemma with_data_id c : with_data (data c) c = c.
Proof. by destruct c. Qed.

Lemma for_each_merge l w :
  for_each l
    (λ kv, modify_component (λ c, with_data (<[kv.1 := kv.2]> (data c)) c)) w
  = (Normal tt,
     set_component (with_data (merge_entries l (data (component w))) (component w)) w).
Proof.
  revert w. induction l as [|kv l IH]; intros w.
  - cbn. by rewrite with_data_id, set_component_id.
  - cbn [for_each]. unfold mbind, M_bind at 1.
    unfold modify_component at 1, modify_world at 1.
    rewrite IH. by destruct w as [? ? ? ? ? [] ?].
Qed.

Lemma for_each_delete l k m w :
  for_each l
    (λ kv, b ← in_operator kv.1 (JObj k m);
           if negb b
           then modify_component (λ c, with_data (delete kv.1 (data c)) c)
           else mret tt) w
  = (Normal tt,
     set_component (with_data (delete_absent l m (data (component w))) (component w)) w).
Proof.
  revert w. induction l as [|kv l IH]; intros w.
  - cbn. by rewrite with_data_id, set_component_id.
  - cbn [for_each]. unfold mbind at 1, M_bind at 1.
    cbn [in_operator]. unfold mbind at 1, M_bind at 1, mret at 1, M_ret at 1.
    cbn [delete_absent foldl].
    destruct (has_property m kv.1) eqn:Hb; cbn [negb].
    + unfold mret at 1, M_ret at 1. by rewrite IH.
    + unfold modify_component at 1, modify_world at 1.
      rewrite IH. by destruct w as [? ? ? ? ? [] ?].
Qed.

Lemma for_each_delete_loop l target w :
  for_each l
    (λ kv, b ← in_operator kv.1 target;
           if negb b
           then modify_component (λ c, with_data (delete kv.1 (data c)) c)
           else mret tt) w
  = ((delete_loop l target (data (component w))).1,
     set_component
       (with_data (delete_loop l target (data (component w))).2 (component w)) w).
Proof.
  destruct target as [| | | | |k m];
    try (destruct l as [|kv l]; cbn;
         by rewrite with_data_id, set_component_id).
  apply for_each_delete.
Qed.

End world_lemmas.

Lemma updateData_eq v w : updateData v w = updateData_spec v w.
Proof.
  unfold updateData, updateData_spec.
  unfold mbind at 1, M_bind at 1, get_world at 1.
  unfold mbind at 1, M_bind at 1. rewrite for_each_merge.
  unfold mbind at 1, M_bind at 1.
  destruct (truthy (oldData (manager w))) eqn:Hold.
  - destruct w as [sv mg src tr co c mgr]; cbn [manager component oldData] in *.
    rewrite for_each_delete_loop. cbn [component set_component].
    destruct c; cbn [with_data data].
    destruct (delete_loop _ _ _) as [[[]|e] d2]; reflexivity.
  - destruct w as [sv mg src tr co c mgr]; destruct c; reflexivity.
Qed.

Section loops.
Implicit Types (l : list (string * jsval)) (m d : gmap string jsval) (key : string).

Lemma merge_entries_notin l d key :
  key ∉ l.*1 → merge_entries l d !! key = d !! key.
Proof.
  revert d. induction l as [|[k v] l IH]; intros d Hk; [done|].
  cbn in *. apply not_elem_of_cons in Hk as [Hne Hk].
  unfold merge_entries in IH. rewrite IH by done.
  by rewrite lookup_insert_ne.
Qed.

Lemma merge_entries_in l d key v :
  NoDup l.*1 → (key, v) ∈ l → merge_entries l d !! key = Some v.
Proof.
  revert d. induction l as [|[k v'] l IH]; intros d Hnd Hin.
  - by apply elem_of_nil in Hin.
  - cbn in Hnd. apply NoDup_cons in Hnd as [Hk Hnd].
    apply elem_of_cons in Hin as [Heq|Hin].
    + injection Heq as -> ->. cbn.
      fold (merge_entries l (<[k:=v']> d)).
      rewrite merge_entries_notin by done. apply lookup_insert_eq.
    + cbn. by apply IH.
Qed.

Lemma map_to_list_keys m key : key ∈ (map_to_list m).*1 ↔ is_Some (m !! key).
Proof.
  rewrite list_elem_of_fmap. split.
  - intros [[k v] [-> Hin]]. apply elem_of_map_to_list in Hin. by exists v.
  - intros [v Hv]. exists (key, v). split; [done|]. by apply elem_of_map_to_list.
Qed.

(** The first loop over an object is a left-biased union. *)
Lemma merge_entries_map m d : merge_entries (map_to_list m) d = m ∪ d.
Proof.
  apply map_eq. intros key. rewrite lookup_union.
  destruct (m !! key) as [v|] eqn:Hm.
  - rewrite (merge_entries_in _ _ key v).
    + by destruct (d !! key).
    + apply NoDup_fst_map_to_list.
    + by apply elem_of_map_to_list.
  - rewrite merge_entries_notin.
    + by destruct (d !! key).
    + rewrite map_to_list_keys, Hm. by intros [? ?].
Qed.

Lemma has_property_own m key x : m !! key = Some x → has_property m key = true.
Proof.
  intros Hx. unfold has_property. rewrite bool_decide_eq_true_2; [done|]. eauto.
Qed.

Lemma has_property_false m key :
  has_property m key = false ↔ m !! key = None ∧ inherited key = false.
Proof.
  unfold has_property. rewrite orb_false_iff, bool_decide_eq_false.
  split; intros [H1 H2]; (split; [|done]).
  - destruct (m !! key) eqn:E; [|done]. exfalso. apply H1. eauto.
  - rewrite H1. by intros [? ?].
Qed.

Lemma delete_absent_lookup l m d key :
  delete_absent l m d !! key
  = if decide (key ∈ l.*1 ∧ has_property m key = false) then None else d !! key.
Proof.
  revert d. induction l as [|[k v] l IH]; intros d.
  - cbn. case_decide as H; [|done]. destruct H as [H _]. by apply elem_of_nil in H.
  - change (delete_absent ((k, v) :: l) m d)
      with (delete_absent l m (if has_property m k then d else delete k d)).
    rewrite IH. cbn [fmap list_fmap fst].
    destruct (decide (key ∈ l.*1 ∧ has_property m key = false)) as [[H1 H2]|Hn].
    + rewrite decide_True; [done|]. split; [by right|done].
    + destruct (decide (key = k ∧ has_property m key = false)) as [[-> Hm]|Hn2].
      * rewrite Hm, lookup_delete_eq.
        rewrite decide_True; [done|]. split; [by left|done].
      * rewrite decide_False.
        2:{ intros [Hin Hm]. apply elem_of_cons in Hin as [->|Hin]; naive_solver. }
        destruct (has_property m k) eqn:Hk; [done|].
        rewrite lookup_delete_ne; [done|]. intros ->. by apply Hn2.
Qed.

Lemma string_entries_keys i s :
  (string_entries i s).*1 = pretty <$> seq i (String.length s).
Proof. revert i. induction s as [|c s IH]; intros i; cbn; [done|]. by rewrite IH. Qed.

End loops.

(** ** [updateData] with an object *)

Section updateData_object.
Context (k : objkind) (m : gmap string jsval) (w : World).

Let w' := after (updateData (JObj k m)) w.

Lemma updateData_object_result : result (updateData (JObj k m)) w = Normal tt.
Proof.
  unfold result. rewrite updateData_eq. unfold updateData_spec.
  cbn [is_undefined]. by destruct (truthy (oldData (manager w))).
Qed.

Lemma updateData_object_oldData : oldData (manager w') = JObj k m.
Proof.
  unfold w', after. rewrite updateData_eq. unfold updateData_spec.
  cbn [is_undefined]. by destruct (truthy (oldData (manager w))).
Qed.

Lemma updateData_object_flag : failedToGetData (component w') = JBool false.
Proof.
  unfold w', after. rewrite updateData_eq. unfold updateData_spec.
  cbn [is_undefined]. by destruct (truthy (oldData (manager w))).
Qed.

Lemma updateData_object_data key :
  data (component w') !! key =
  match m !! key with
  | Some v => Some v
  | None =>
      if decide (truthy (oldData (manager w)) ∧ mentions (oldData (manager w)) key
                 ∧ inherited key = false)
      then None
      else data (component w) !! key
  end.
Proof.
  unfold w', after. rewrite updateData_eq. unfold updateData_spec.
  cbn [is_undefined enumerable_entries]. rewrite merge_entries_map.
  destruct (truthy (oldData (manager w))) eqn:Hold;
    cbn [delete_loop fst snd set_component component with_failedToGetData
         with_data data].
  - rewrite delete_absent_lookup, lookup_union. unfold mentions.
    destruct (m !! key) as [v|] eqn:Hm.
    + rewrite decide_False
        by (intros [_ Hp]; by rewrite (has_property_own m key v Hm) in Hp).
      by destruct (data (component w) !! key).
    + destruct (decide (key ∈ (enumerable_entries (oldData (manager w))).*1
                        ∧ has_property m key = false)) as [[Hin Hp]|Hn].
      * apply has_property_false in Hp as [_ Hi]. rewrite decide_True; done.
      * rewrite decide_False.
        2:{ intros (_ & Hin & Hi). apply Hn. split; [done|].
            by apply has_property_false. }
        by destruct (data (component w) !! key).
  - rewrite lookup_union. rewrite decide_False by (by intros [? ?]).
    destruct (m !! key); by destruct (data (component w) !! key).
Qed.

End updateData_object.

(** ** C1: two snapshots in succession *)

(** C1 (as amended).  For every world and every two snapshots S1 then S2,
    plain objects, passed to [updateData] in succession, both calls return
    normally.  Take a key that is not the name of a property inherited from
    [Object.prototype].  Afterwards [data] binds it to S2's value if S2 has
    it; it is absent if S1 has it and S2 does not, or if the snapshot
    stored before S1 mentions it and neither S1 nor S2 has it (the first
    call deleted it); otherwise it is as it was.  This is so when the
    object given as S1 is left alone between the calls: [updateData] keeps
    that very object, and when it was changed in between (or is S2
    itself), the second call deletes the keys that the object holds then
    and S2 lacks. *)
Theorem updateData_twice (w : World) (m1 m2 : gmap string jsval) :
  let S1 := JObj PlainObject m1 in
  let S2 := JObj PlainObject m2 in
  let w1 := after (updateData S1) w in
  let w2 := after (updateData S2) w1 in
  result (updateData S1) w = Normal tt ∧
  result (updateData S2) w1 = Normal tt ∧
  (∀ key, inherited key = false →
     data (component w2) !! key =
     match m2 !! key with
     | Some v => Some v
     | None =>
         if decide (is_Some (m1 !! key)
                    ∨ (truthy (oldData (manager w)) ∧ mentions (oldData (manager w)) key))
         then None
         else data (component w) !! key
     end) ∧
  (∀ m1' key, inherited key = false →
     let w1' := after (stored_snapshot_mutated m1') w1 in
     result (updateData S2) w1' = Normal tt ∧
     data (component (after (updateData S2) w1')) !! key =
     match m2 !! key with
     | Some v => Some v
     | None => if decide (is_Some (m1' !! key)) then None else data (component w1) !! key
     end).
Proof.
  intros S1 S2 w1 w2. split; [apply updateData_object_result|].
  split; [apply updateData_object_result|].
  pose proof (updateData_object_oldData PlainObject m1 w) as Ho. fold S1 w1 in Ho.
  split.
  - intros key Hi. unfold w2, S2. rewrite updateData_object_data.
    destruct (m2 !! key) as [v|] eqn:H2; [done|].
    destruct (decide (truthy (oldData (manager w1)) ∧ mentions (oldData (manager w1)) key
                      ∧ inherited key = false)) as [(_ & Hin & _)|Hn].
    + rewrite Ho in Hin. apply map_to_list_keys in Hin.
      rewrite decide_True; [done|]. by left.
    + assert (m1 !! key = None) as H1.
      { destruct (m1 !! key) as [v1|] eqn:H1; [|done]. exfalso. apply Hn.
        rewrite Ho. split; [done|]. split; [|done].
        apply map_to_list_keys. rewrite H1. eauto. }
      unfold w1, S1. rewrite updateData_object_data, H1.
      destruct (decide (truthy (oldData (manager w)) ∧ mentions (oldData (manager w)) key
                        ∧ inherited key = false)) as [(Ht & Hm & _)|Hold].
      * rewrite decide_True; [done|]. by right.
      * rewrite decide_False; [done|]. intros [[? ?]|[? ?]]; [done|]. by apply Hold.
  - intros m1' key Hi w1'. split; [apply updateData_object_result|].
    assert (oldData (manager w1') = JObj PlainObject m1'
            ∧ data (component w1') = data (component w1)) as [Ho' Hd'].
    { unfold w1', after, stored_snapshot_mutated, modify_manager, modify_world.
      cbn. by rewrite Ho. }
    unfold S2. rewrite updateData_object_data, Ho', Hd'.
    destruct (m2 !! key) as [v|]; [done|].
    destruct (m1' !! key) as [x|] eqn:H1'.
    + rewrite !decide_True; [done|eauto|].
      split; [done|]. split; [|done]. apply map_to_list_keys. rewrite H1'. eauto.
    + rewrite !decide_False; [done|by intros [? ?]|].
      intros (_ & Hin & _). apply map_to_list_keys in Hin. rewrite H1' in Hin.
      by destruct Hin.
Qed.

(** C1 as stated fails.  A manager that merged [{a: 1}] is then given the
    snapshots [{b: 2}] and [{b: 3}]: the key [a] is in [data] before the
    two calls, neither snapshot mentions it, and it is gone afterwards. *)
Lemma updateData_twice_counterexample :
  let w0 := fresh_world false false ∅ None JNull JNull in
  let w := after (updateData (JObj PlainObject {[ "a" := JNum 1 ]})) w0 in
  let S1 := JObj PlainObject {[ "b" := JNum 2 ]} in
  let S2 := JObj PlainObject {[ "b" := JNum 3 ]} in
  let w2 := after (updateData S2) (after (updateData S1) w) in
  data (component w) !! "a" = Some (JNum 1) ∧
  ¬ mentions S1 "a" ∧ ¬ mentions S2 "a" ∧
  data (component w2) !! "a" = None ∧
  data (component w2) !! "b" = Some (JNum 3).
Proof.
  cbn zeta. split; [by vm_compute|].
  split; [intros H; apply map_to_list_keys in H as [? H]; by vm_compute in H|].
  split; [intros H; apply map_to_list_keys in H as [? H]; by vm_compute in H|].
  split; by vm_compute.
Qed.

(** ** C4: the failure flag *)

(** C4 (as amended).  [undefined] is the only absence sentinel of
    [updateData]: with it the call returns normally, does what a call with
    [{}] does, and sets the failure flag to [true].  With any other
    argument, [null] too, a call that returns normally sets the flag to
    [false]; a call that throws leaves the flag as it was.  So after a call
    that returns, the flag is true iff the argument was [undefined]. *)
Theorem updateData_failure_flag (w : World) :
  result (updateData JUndefined) w = Normal tt ∧
  after (updateData JUndefined) w
  = set_component
      (with_failedToGetData (JBool true)
         (component (after (updateData empty_object) w)))
      (after (updateData empty_object) w) ∧
  ∀ v,
    failedToGetData (component (after (updateData v) w)) =
    match result (updateData v) w with
    | Normal _ => JBool (is_undefined v)
    | Abrupt _ => failedToGetData (component w)
    end.
Proof.
  split; [|split].
  - unfold result. rewrite updateData_eq. unfold updateData_spec.
    cbn [is_undefined empty_object delete_loop].
    by destruct (truthy (oldData (manager w))).
  - unfold after. rewrite !updateData_eq. unfold updateData_spec.
    cbn [is_undefined empty_object delete_loop].
    by destruct (truthy (oldData (manager w))).
  - intros v. unfold after, result. rewrite updateData_eq. unfold updateData_spec.
    destruct (truthy (oldData (manager w)));
      [destruct (delete_loop _ _ _) as [[[]|e] d2]|]; done.
Qed.

(** C4 as stated fails for [null]: on a manager that has just been
    constructed, [updateData(null)] returns normally, leaves the failure
    flag [false], and stores [null], not an empty mapping. *)
Lemma updateData_null_counterexample :
  let w := fresh_world false false ∅ None JNull JNull in
  result (updateData JNull) w = Normal tt ∧
  failedToGetData (component (after (updateData JNull) w)) = JBool false ∧
  oldData (manager (after (updateData JNull) w)) = JNull.
Proof. by vm_compute. Qed.

(** ** C10: no deletion without a previous snapshot *)

Lemma merge_entries_is_Some l d key :
  is_Some (d !! key) → is_Some (merge_entries l d !! key).
Proof.
  revert d. induction l as [|[k v] l IH]; intros d Hd; [done|].
  cbn. apply IH. destruct (decide (k = key)) as [->|Hne].
  - rewrite lookup_insert_eq. eauto.
  - by rewrite lookup_insert_ne.
Qed.

Lemma updateData_null_resets w :
  result (updateData JNull) w = Normal tt →
  oldData (manager (after (updateData JNull) w)) = JNull.
Proof.
  unfold result, after. rewrite updateData_eq. unfold updateData_spec.
  cbn [is_undefined].
  destruct (truthy (oldData (manager w)));
    [destruct (delete_loop _ _ _) as [[[]|e] d2]|]; done.
Qed.

(** C10 (as amended).  On the first [updateData] call of a manager (the
    stored previous snapshot is the constructor's [null]), and on the call
    that follows an [updateData(null)] call that returned normally, the
    call returns normally and deletes nothing: [data] is the old [data]
    with the entries of the new snapshot written over it, so every key the
    new snapshot does not mention keeps its value and every key that was
    present is still present. *)
Theorem updateData_without_previous (w0 w : World) (v : jsval)
    (Hprev : oldData (manager w) = oldData new_manager
             ∨ (result (updateData JNull) w0 = Normal tt
                ∧ w = after (updateData JNull) w0)) :
  let v' := if is_undefined v then empty_object else v in
  let w' := after (updateData v) w in
  result (updateData v) w = Normal tt ∧
  data (component w') = merge_entries (enumerable_entries v') (data (component w)) ∧
  (∀ key, ¬ mentions v' key → data (component w') !! key = data (component w) !! key) ∧
  (∀ key, is_Some (data (component w) !! key) → is_Some (data (component w') !! key)).
Proof.
  intros v' w'.
  assert (oldData (manager w) = JNull) as Hold.
  { destruct Hprev as [H|[Hr ->]]; [done|]. by apply updateData_null_resets. }
  assert (result (updateData v) w = Normal tt
          ∧ data (component w')
            = merge_entries (enumerable_entries v') (data (component w))) as [Hr Hd].
  { unfold w', result, after. rewrite updateData_eq. unfold updateData_spec.
    rewrite Hold. by cbn. }
  split; [done|]. split; [done|]. rewrite Hd. split.
  - intros key Hk. by apply merge_entries_notin.
  - intros key. apply merge_entries_is_Some.
Qed.

Lemma updateData_without_previous_witness :
  let failed := after (updateData JUndefined)
                  (fresh_world false false ∅ None JNull JNull) in
  let w0 := set_component (with_data {[ "x" := JNum 9 ]} (component failed)) failed in
  let w := after (updateData JNull) w0 in
  let S := JObj PlainObject {[ "b" := JNum 2 ]} in
  let w' := after (updateData S) w in
  oldData (manager w0) = empty_object ∧
  oldData (manager w) = JNull ∧
  data (component w) !! "x" = Some (JNum 9) ∧
  data (component w') !! "x" = Some (JNum 9) ∧
  data (component w') !! "b" = Some (JNum 2).
Proof.
  split; [reflexivity|]. split; [reflexivity|]. split; [reflexivity|].
  split; [|by vm_compute].
  pose proof (updateData_without_previous
    (set_component
       (with_data {[ "x" := JNum 9 ]}
          (component (after (updateData JUndefined)
                        (fresh_world false false ∅ None JNull JNull))))
       (after (updateData JUndefined) (fresh_world false false ∅ None JNull JNull)))
    (after (updateData JNull)
       (set_component
          (with_data {[ "x" := JNum 9 ]}
             (component (after (updateData JUndefined)
                           (fresh_world false false ∅ None JNull JNull))))
          (after (updateData JUndefined) (fresh_world false false ∅ None JNull JNull))))
    (JObj PlainObject {[ "b" := JNum 2 ]})
    (or_intror (conj eq_refl eq_refl))) as (_ & _ & Hkeep & _).
  rewrite (Hkeep "x").
  - reflexivity.
  - intros H. apply map_to_list_keys in H as [? H]. by vm_compute in H.
Defined.

(** C10 as stated fails after an [updateData(null)] call that throws.  A
    manager that merged [{a: 1}]: [updateData(null)] throws the TypeError
    of ['a' in null] before it stores anything, the stored previous
    snapshot is still [{a: 1}], and the next call, with [{}], deletes
    [a]. *)
Lemma updateData_after_null_counterexample :
  let w0 := after (updateData (JObj PlainObject {[ "a" := JNum 1 ]}))
              (fresh_world false false ∅ None JNull JNull) in
  let w := after (updateData JNull) w0 in
  let w' := after (updateData empty_object) w in
  result (updateData JNull) w0 = Abrupt (TypeError_in JNull) ∧
  oldData (manager w) = JObj PlainObject {[ "a" := JNum 1 ]} ∧
  data (component w) !! "a" = Some (JNum 1) ∧
  ¬ mentions empty_object "a" ∧
  data (component w') !! "a" = None.
Proof.
  cbn zeta. split; [by vm_compute|]. split; [by vm_compute|].
  split; [by vm_compute|].
  split; [intros H; by apply elem_of_nil in H|]. by vm_compute.
Qed.

(** ** Running the user's function *)

(** Unfolds the monad and the primitive operations on the world. *)
Ltac mrun :=
  cbv [mbind M_bind mret M_ret get_world modify_world modify_component
       modify_manager modify_tracker throw try_catch try_finally
       console_error console_warn read_source update_computation
       Computation_stop set_currentComputation call_setState forceUpdate];
  cbn.

Lemma run_fetch_eq f w :
  run_fetch f w = ((fetch_of w f).1.1, world_after_fetch w f).
Proof.
  revert w. induction f as [v|e|x k IH|k IH|arg k IHk handler IHh]; intros w;
    destruct w as [sv mg src [cs cur] co [p s g d fl st calls fu] mgr];
    cbn [run_fetch].
  - unfold world_after_fetch, fetch_of. mrun. rewrite app_nil_r. by destruct cur.
  - unfold world_after_fetch, fetch_of. mrun. rewrite app_nil_r. by destruct cur.
  - destruct cur as [h|]; mrun; rewrite IH; reflexivity.
  - mrun. rewrite IH. reflexivity.
  - destruct st as [id|]; mrun.
    + rewrite IHk. unfold world_after_fetch, fetch_of. cbn.
      by rewrite <- app_assoc.
    + rewrite IHh. reflexivity.
Qed.

Lemma fetch_trace_guard_calls srcs p s f :
  (fetch_trace srcs p s GuardSetState f).1.2 = [].
Proof. induction f; cbn; eauto. Qed.

(** ** [calculateData] on the client *)

Section snoc.
Context {A : Type}.
Implicit Types (l : list A) (x : A).

Lemma alter_snoc (g : A → A) l x : alter g (length l) (l ++ [x]) = l ++ [g x].
Proof.
  replace (length l) with (length l + 0)%nat by lia. by rewrite alter_app_r.
Qed.

Lemma lookup_snoc l x : (l ++ [x]) !! length l = Some x.
Proof. by rewrite list_lookup_middle. Qed.

End snoc.

Lemma track_reads_snoc reads cs c :
  track_reads (Some (length cs)) reads (cs ++ [c]) = cs ++ [tracked reads c].
Proof.
  unfold track_reads, tracked. revert c.
  induction reads as [|x reads IH]; intros c; [done|].
  cbn. by rewrite alter_snoc, IH.
Qed.

Lemma warn_cursors_eq v w :
  warn_cursors v w
  = (Normal tt, set_console (console w ++ cursor_warnings (mongoLoaded w) v) w).
Proof.
  unfold warn_cursors, cursor_warnings. mrun.
  destruct (truthy v && mongoLoaded w).
  2:{ rewrite app_nil_r. by destruct w. }
  generalize (enumerable_entries v) as l. intros l. revert w.
  induction l as [|kv l IH]; intros w.
  - cbn. rewrite app_nil_r. by destruct w.
  - cbn [for_each flat_map]. destruct (instanceof_Cursor kv.2); mrun.
    + rewrite IH. destruct w; cbn. by rewrite <- app_assoc.
    + by rewrite IH.
Qed.

Lemma stop_existing_computation_eq w :
  stop_existing_computation w
  = (Normal tt,
     set_manager (with_computation None (manager w))
       (set_tracker
          (with_computations
             (stopped_existing (manager w) (computations (tracker w))) (tracker w))
          w)).
Proof.
  destruct w as [sv mg src [cs cur] co c [[h|] old]];
    unfold stop_existing_computation, stopped_existing; by mrun.
Qed.

Lemma first_run_eq w f :
  getMeteorData (component w) = Some f →
  first_run w
  = let r := fetch_of (guarded w) f in
    let o := first_run_outcome r.1.1 in
    (Normal o.1,
     set_console (console w ++ o.2)
       (set_tracker
          (with_computations
             (track_reads (currentComputation (tracker w)) r.2
                (computations (tracker w)))
             (tracker w))
          w)).
Proof.
  intros Hf.
  destruct w as [sv mg src [cs cur] co [p s g d fl st calls fu] mgr].
  cbn in Hf. subst g.
  unfold first_run, call_getMeteorData. mrun.
  rewrite run_fetch_eq. unfold world_after_fetch, fetch_of, guarded. cbn.
  rewrite fetch_trace_guard_calls. cbn.
  destruct (fetch_trace src p s GuardSetState f) as [[[v|e] cl] rd]; cbn.
  - unfold is_mapping. destruct (truthy v && String.eqb (typeof v) "object"); cbn.
    + by rewrite !app_nil_r.
    + by rewrite !app_nil_r.
  - by rewrite !app_nil_r.
Qed.

Lemma autorun_first_eq w f :
  getMeteorData (component w) = Some f →
  Tracker_autorun (autorun_body JUndefined) w
  = let r := fetch_of (guarded w) f in
    let o := first_run_outcome r.1.1 in
    (Normal (length (computations (tracker w)), o.1),
     set_console (console w ++ o.2)
       (set_tracker
          (with_computations
             (computations (tracker w) ++ [created_computation r.2]) (tracker w))
          w)).
Proof.
  intros Hf.
  destruct w as [sv mg src [cs cur] co [p s g d fl st calls fu] mgr].
  cbn in Hf. subst g.
  unfold Tracker_autorun, Tracker_compute, autorun_body. mrun.
  rewrite !alter_snoc, lookup_snoc. cbn.
  erewrite first_run_eq by reflexivity.
  unfold fetch_of, guarded. cbn -[track_reads fetch_trace].
  rewrite track_reads_snoc. cbn -[fetch_trace]. rewrite alter_snoc.
  reflexivity.
Qed.

Lemma calculateData_client_eq w f :
  getMeteorData (component w) = Some f → isServer w = false →
  calculateData w = calculateData_client w f.
Proof.
  intros Hf Hs.
  unfold calculateData. unfold mbind at 1, M_bind at 1, get_world at 1.
  rewrite Hf, Hs. unfold mbind at 1, M_bind at 1.
  rewrite stop_existing_computation_eq.
  unfold mbind at 1, M_bind at 1. unfold Tracker_nonreactive. 
  destruct w as [sv mg src [cs cur] co [p s g d fl st calls fu] [h0 old]].
  cbn in Hf, Hs. subst g sv. mrun.
  erewrite autorun_first_eq by reflexivity.
  unfold fetch_of, guarded. cbn -[fetch_trace].
  rewrite warn_cursors_eq. cbn -[fetch_trace].
  unfold calculateData_client, fetch_of, guarded. cbn -[fetch_trace].
  by rewrite app_assoc.
Qed.

Lemma calculateData_no_fetch w :
  getMeteorData (component w) = None → calculateData w = (Normal JNull, w).
Proof.
  intros Hf. unfold calculateData.
  unfold mbind at 1, M_bind at 1, get_world at 1. by rewrite Hf.
Qed.

Lemma calculateData_server_eq w f :
  getMeteorData (component w) = Some f → isServer w = true →
  calculateData w = run_fetch f w.
Proof.
  intros Hf Hs. unfold calculateData.
  unfold mbind at 1, M_bind at 1, get_world at 1. rewrite Hf, Hs.
  unfold call_getMeteorData.
  unfold mbind at 1, M_bind at 1, get_world at 1. by rewrite Hf.
Qed.

Lemma dispose_eq w :
  dispose w
  = (Normal tt,
     set_manager (with_computation None (manager w))
       (set_tracker
          (with_computations
             (stopped_existing (manager w) (computations (tracker w))) (tracker w))
          w)).
Proof. apply stop_existing_computation_eq. Qed.

Lemma componentWillUpdate_eq np ns w :
  componentWillUpdate np ns w = componentWillUpdate_spec np ns w.
Proof.
  unfold componentWillUpdate, componentWillUpdate_spec. 
  destruct w as [sv mg src tr co [p s g d fl st calls fu] mgr]. mrun.
  destruct (calculateData _) as [[v|e] w2]; reflexivity.
Qed.

Lemma flush_eq h w :
  Forall (λ c, firstRun c = false) (computations (tracker w)) →
  run_event (Flush h) w = (Normal tt, flush_spec h w).
Proof.
  intros Hfr. unfold run_event, Tracker_recompute, flush_spec.
  destruct w as [sv mg src [cs cur] co [p s g d fl st calls fu] mgr].
  cbn in Hfr. mrun.
  destruct (cs !! h) as [c|] eqn:Hc; [|done].
  destruct (invalidated c && negb (stopped c)); [|done].
  unfold Tracker_compute, autorun_body, later_run. mrun.
  rewrite list_lookup_alter_eq, Hc. cbn.
  rewrite (proj1 (Forall_lookup _ _) Hfr h c Hc). 
  reflexivity.
Qed.

(** ** The invariant *)

Section statuses.
Implicit Types (cs : list Computation) (h : nat).

Lemma live_in_statuses cs h :
  live_in cs h = match statuses cs !! h with
                 | Some st => negb st.1
                 | None => false
                 end.
Proof.
  unfold live_in, statuses. rewrite list_lookup_fmap. by destruct (cs !! h).
Qed.

Lemma firstRun_statuses cs :
  Forall (λ c, firstRun c = false) cs
  ↔ Forall (λ st : bool * bool, st.2 = false) (statuses cs).
Proof. unfold statuses. by rewrite Forall_fmap. Qed.

Lemma statuses_alter (g : Computation → Computation) h cs :
  (∀ c, stopped (g c) = stopped c ∧ firstRun (g c) = firstRun c) →
  statuses (alter g h cs) = statuses cs.
Proof.
  intros Hg. unfold statuses. apply list_eq. intros i.
  rewrite !list_lookup_fmap, list_lookup_alter.
  case_decide as Hi; [|done]. subst i.
  destruct (cs !! h) as [c|]; [|done]. cbn.
  destruct (Hg c) as [-> ->]. done.
Qed.

Lemma statuses_track_reads cur reads cs :
  statuses (track_reads cur reads cs) = statuses cs.
Proof.
  destruct cur as [h|]; [|done]. cbn. revert cs.
  induction reads as [|x reads IH]; intros cs; [done|].
  cbn. rewrite IH. by apply statuses_alter.
Qed.

Lemma invalidate_computation_status c :
  stopped (invalidate_computation c) = stopped c
  ∧ firstRun (invalidate_computation c) = firstRun c.
Proof. unfold invalidate_computation. by destruct (invalidated c). Qed.

Lemma statuses_changed (s : nat) cs :
  statuses ((λ c, if decide (s ∈ deps c) then invalidate_computation c else c) <$> cs)
  = statuses cs.
Proof.
  unfold statuses. rewrite <- list_fmap_compose. apply list_fmap_ext.
  intros i c _. cbn. case_decide; [|done].
  by destruct (invalidate_computation_status c) as [-> ->].
Qed.

Lemma stop_computation_stopped c : stopped (stop_computation c) = true.
Proof.
  unfold stop_computation. destruct (stopped c) eqn:Hs; [done|].
  by destruct (invalidate_computation_status
                 (mkComputation true (invalidated c) (firstRun c) (deps c)))
    as [-> _].
Qed.

Lemma stop_computation_firstRun c : firstRun (stop_computation c) = firstRun c.
Proof.
  unfold stop_computation. destruct (stopped c) eqn:Hs; [done|].
  by destruct (invalidate_computation_status
                 (mkComputation true (invalidated c) (firstRun c) (deps c)))
    as [_ ->].
Qed.

Lemma live_in_alter g h cs h' :
  live_in (alter g h cs) h'
  = if decide (h = h')
    then match cs !! h with Some c => negb (stopped (g c)) | None => false end
    else live_in cs h'.
Proof.
  unfold live_in. rewrite list_lookup_alter.
  case_decide as H1; subst; [|done]. by destruct (cs !! h').
Qed.

End statuses.

Lemma manager_inv_ext w w' :
  statuses (computations (tracker w')) = statuses (computations (tracker w)) →
  computation (manager w') = computation (manager w) →
  manager_inv w → manager_inv w'.
Proof.
  intros Hst Hc [Hlive Hfr]. split.
  - intros h. unfold is_live. rewrite live_in_statuses, Hst, <- live_in_statuses, Hc.
    apply Hlive.
  - apply firstRun_statuses. rewrite Hst. by apply firstRun_statuses.
Qed.

Lemma stopped_existing_none_live w h :
  manager_inv w →
  live_in (stopped_existing (manager w) (computations (tracker w))) h = false.
Proof.
  intros [Hlive _]. unfold stopped_existing.
  destruct (computation (manager w)) as [h0|] eqn:Hc.
  - rewrite live_in_alter. case_decide as Hh.
    + destruct (_ !! h0); [|done]. by rewrite stop_computation_stopped.
    + destruct (live_in (computations (tracker w)) h) eqn:Hl; [|done].
      apply Hlive in Hl. congruence.
  - destruct (live_in (computations (tracker w)) h) eqn:Hl; [|done].
    apply Hlive in Hl. congruence.
Qed.

Lemma stopped_existing_firstRun m cs :
  Forall (λ c, firstRun c = false) cs →
  Forall (λ c, firstRun c = false) (stopped_existing m cs).
Proof.
  intros H. unfold stopped_existing. destruct (computation m); [|done].
  apply Forall_alter; [done|]. intros c _ Hc. by rewrite stop_computation_firstRun.
Qed.

Lemma created_computation_status reads :
  stopped (created_computation reads) = false
  ∧ firstRun (created_computation reads) = false.
Proof.
  unfold created_computation, tracked.
  assert (∀ c, stopped (foldl (λ c x, with_dep x c) c reads) = stopped c) as H.
  { induction reads as [|x reads IH]; intros c; [done|]. cbn. by rewrite IH. }
  cbn. by rewrite H.
Qed.

Lemma live_in_snoc cs c h :
  live_in (cs ++ [c]) h
  = if decide (h = length cs) then negb (stopped c) else live_in cs h.
Proof.
  unfold live_in. case_decide as Hh.
  - subst. by rewrite lookup_snoc.
  - destruct (decide (h < length cs)) as [Hlt|Hge].
    + by rewrite lookup_app_l.
    + rewrite !(proj2 (lookup_ge_None _ _)); [done|lia|].
      rewrite length_app. cbn. lia.
Qed.

Lemma updateData_frame v w :
  let w' := after (updateData v) w in
  tracker w' = tracker w ∧ computation (manager w') = computation (manager w)
  ∧ isServer w' = isServer w ∧ mongoLoaded w' = mongoLoaded w
  ∧ sources w' = sources w ∧ console w' = console w
  ∧ getMeteorData (component w') = getMeteorData (component w)
  ∧ props (component w') = props (component w)
  ∧ state (component w') = state (component w)
  ∧ setState (component w') = setState (component w)
  ∧ setStateCalls (component w') = setStateCalls (component w)
  ∧ forceUpdateCalls (component w') = forceUpdateCalls (component w).
Proof.
  cbn zeta. unfold after. rewrite updateData_eq. unfold updateData_spec.
  destruct (truthy (oldData (manager w)));
    [destruct (delete_loop _ _ _) as [[[]|e] d2]|]; by cbn.
Qed.

Lemma world_after_fetch_frame w f :
  let w' := world_after_fetch w f in
  statuses (computations (tracker w')) = statuses (computations (tracker w))
  ∧ currentComputation (tracker w') = currentComputation (tracker w)
  ∧ manager w' = manager w
  ∧ isServer w' = isServer w ∧ mongoLoaded w' = mongoLoaded w
  ∧ sources w' = sources w ∧ console w' = console w
  ∧ getMeteorData (component w') = getMeteorData (component w)
  ∧ props (component w') = props (component w)
  ∧ state (component w') = state (component w)
  ∧ setState (component w') = setState (component w)
  ∧ data (component w') = data (component w)
  ∧ failedToGetData (component w') = failedToGetData (component w)
  ∧ forceUpdateCalls (component w') = forceUpdateCalls (component w).
Proof.
  cbn zeta. unfold world_after_fetch. cbn. rewrite statuses_track_reads.
  done.
Qed.

Lemma calculateData_client_inv w f :
  manager_inv w → manager_inv (calculateData_client w f).2.
Proof.
  intros Hinv. split.
  - intros h. unfold is_live. cbn. rewrite live_in_snoc. case_decide as Hh.
    + by subst.
    + by rewrite stopped_existing_none_live.
  - cbn. apply Forall_app. split.
    + apply stopped_existing_firstRun, Hinv.
    + apply Forall_singleton, created_computation_status.
Qed.

Lemma calculateData_inv w : manager_inv w → manager_inv (after calculateData w).
Proof.
  intros Hinv. unfold after.
  destruct (getMeteorData (component w)) as [f|] eqn:Hf.
  - destruct (isServer w) eqn:Hs.
    + rewrite (calculateData_server_eq w f), run_fetch_eq by done. cbn [snd].
      destruct (world_after_fetch_frame w f) as (Hst & _ & Hm & _).
      eapply manager_inv_ext; [exact Hst|by rewrite Hm|exact Hinv].
    + rewrite (calculateData_client_eq w f) by done.
      by apply calculateData_client_inv.
  - by rewrite calculateData_no_fetch.
Qed.

Lemma updateData_inv v w : manager_inv w → manager_inv (after (updateData v) w).
Proof.
  intros Hinv. destruct (updateData_frame v w) as (Ht & Hc & _).
  eapply manager_inv_ext; [|exact Hc|exact Hinv]. by rewrite Ht.
Qed.

Lemma dispose_inv w : manager_inv w → manager_inv (after dispose w).
Proof.
  intros Hinv. unfold after. rewrite dispose_eq. split.
  - intros h. unfold is_live. cbn. by rewrite stopped_existing_none_live.
  - cbn. apply stopped_existing_firstRun, Hinv.
Qed.

Lemma flush_inv h w : manager_inv w → manager_inv (after (run_event (Flush h)) w).
Proof.
  intros Hinv. unfold after. rewrite flush_eq by apply Hinv. cbn.
  unfold flush_spec. destruct (computations (tracker w) !! h) as [c|] eqn:Hc; [|done].
  destruct (invalidated c && negb (stopped c)); [|done].
  destruct Hinv as [Hlive Hfr]. split.
  - intros h'. unfold is_live. cbn. rewrite live_in_alter. case_decide as Hh.
    + rewrite list_lookup_alter_eq, Hc. cbn. by rewrite stop_computation_stopped.
    + rewrite live_in_alter. case_decide; [done|]. apply Hlive.
  - cbn. apply Forall_alter.
    + apply Forall_alter; [done|]. by intros c' _ Hc'.
    + intros c' _ Hc'. by rewrite stop_computation_firstRun.
Qed.

Lemma source_changed_eq s v w :
  source_changed s v w
  = (Normal tt,
     set_tracker
       (with_computations
          ((λ c, if decide (s ∈ deps c) then invalidate_computation c else c)
             <$> computations (tracker w))
          (tracker w))
       (set_sources (<[s := v]> (sources w)) w)).
Proof. unfold source_changed. by mrun. Qed.

Lemma componentWillUpdate_inv np ns w :
  manager_inv w → manager_inv (after (componentWillUpdate np ns) w).
Proof.
  intros Hinv. unfold after. rewrite componentWillUpdate_eq.
  unfold componentWillUpdate_spec.
  set (w1 := set_component _ w).
  assert (manager_inv w1) as H1 by (by eapply manager_inv_ext; [| |exact Hinv]).
  apply calculateData_inv in H1. unfold after in H1.
  destruct (calculateData w1) as [r w2]. cbn [fst snd] in *.
  set (w3 := set_component _ w2).
  assert (manager_inv w3) as H3 by (by eapply manager_inv_ext; [| |exact H1]).
  destruct r as [v|e]; [|done]. by apply updateData_inv.
Qed.

Lemma run_event_inv e w : manager_inv w → manager_inv (after (run_event e) w).
Proof.
  intros Hinv. destruct e as [|v| |np ns|s v|h].
  - unfold after, run_event. mrun.
    apply calculateData_inv in Hinv. unfold after in Hinv.
    by destruct (calculateData w) as [[?|?] ?].
  - by apply updateData_inv.
  - by apply dispose_inv.
  - by apply componentWillUpdate_inv.
  - unfold after, run_event. rewrite source_changed_eq. cbn.
    eapply manager_inv_ext; [| |exact Hinv]; [|done]. cbn.
    apply statuses_changed.
  - by apply flush_inv.
Qed.

Lemma run_events_inv es w : manager_inv w → manager_inv (run_events es w).
Proof.
  revert w. induction es as [|e es IH]; intros w Hinv; [done|].
  cbn. apply IH. by apply run_event_inv.
Qed.

Lemma fresh_world_inv server mongo srcs f p s :
  manager_inv (fresh_world server mongo srcs f p s).
Proof. split; [by intros [|h]|by apply Forall_nil]. Qed.

(** ** What no event changes *)

Lemma same_config_trans w1 w2 w3 :
  same_config w1 w2 → same_config w2 w3 → same_config w1 w3.
Proof.
  intros (? & ? & ?) (? & ? & ?). unfold same_config.
  split; [congruence|]. split; congruence.
Qed.

Lemma calculateData_config w : same_config w (after calculateData w).
Proof.
  unfold after, same_config.
  destruct (getMeteorData (component w)) as [f|] eqn:Hf.
  - destruct (isServer w) eqn:Hs.
    + rewrite (calculateData_server_eq w f), run_fetch_eq by done. cbn [snd].
      destruct (world_after_fetch_frame w f) as (_ & _ & _ & -> & -> & _ & _ & -> & _).
      by rewrite Hf, Hs.
    + rewrite (calculateData_client_eq w f) by done. by cbn.
  - rewrite calculateData_no_fetch by done. by cbn.
Qed.

Lemma updateData_config v w : same_config w (after (updateData v) w).
Proof.
  destruct (updateData_frame v w) as (_ & _ & ? & ? & _ & _ & ? & _). done.
Qed.

Lemma componentWillUpdate_config np ns w :
  same_config w (after (componentWillUpdate np ns) w).
Proof.
  unfold after. rewrite componentWillUpdate_eq. unfold componentWillUpdate_spec.
  set (w1 := set_component _ w).
  destruct (calculateData_config w1) as (H1 & H2 & H3). unfold after in *.
  destruct (calculateData w1) as [r w2]. cbn [fst snd] in *.
  set (w3 := set_component _ w2).
  assert (same_config w w3) as H by done.
  destruct r as [v|e]; [|done].
  eapply same_config_trans; [exact H|apply updateData_config].
Qed.

Lemma run_event_config e w :
  manager_inv w → same_config w (after (run_event e) w).
Proof.
  intros Hinv. destruct e as [|v| |np ns|s v|h].
  - unfold after, run_event. mrun.
    pose proof (calculateData_config w) as H. unfold after in H.
    by destruct (calculateData w) as [[?|?] ?].
  - apply updateData_config.
  - unfold after, run_event. by rewrite dispose_eq.
  - apply componentWillUpdate_config.
  - unfold after, run_event. by rewrite source_changed_eq.
  - unfold after. rewrite flush_eq by apply Hinv. cbn [snd]. unfold flush_spec.
    destruct (_ !! h) as [c|]; [|done]. by destruct (_ && _).
Qed.

Lemma run_events_config es w :
  manager_inv w → same_config w (run_events es w).
Proof.
  revert w. induction es as [|e es IH]; intros w Hinv; [done|].
  cbn. eapply same_config_trans; [by apply run_event_config|].
  by apply IH, run_event_inv.
Qed.

(** ** C3: at most one live computation *)

Lemma stopped_existing_length m cs : length (stopped_existing m cs) = length cs.
Proof. unfold stopped_existing. destruct (computation m); [|done]. apply length_alter. Qed.

Lemma calculateData_live w h :
  manager_inv w →
  is_live (after calculateData w) h =
  if negb (isServer w) && bool_decide (is_Some (getMeteorData (component w)))
  then bool_decide (h = length (computations (tracker w)))
  else is_live w h.
Proof.
  intros Hinv. unfold after.
  destruct (getMeteorData (component w)) as [g|] eqn:Hf.
  - destruct (isServer w) eqn:Hs; cbn [negb andb].
    + rewrite (calculateData_server_eq w g), run_fetch_eq by done. cbn [snd].
      destruct (world_after_fetch_frame w g) as (Hst & _).
      unfold is_live. by rewrite !live_in_statuses, Hst.
    + rewrite (calculateData_client_eq w g) by done.
      rewrite bool_decide_eq_true_2 by eauto.
      unfold is_live. cbn. rewrite live_in_snoc, stopped_existing_length.
      case_decide as Hh.
      * rewrite bool_decide_eq_true_2 by done.
        by destruct (created_computation_status (fetch_of (guarded w) g).2) as [-> _].
      * rewrite bool_decide_eq_false_2 by done.
        by apply stopped_existing_none_live.
  - rewrite calculateData_no_fetch by done.
    rewrite bool_decide_eq_false_2 by (by intros [? ?]).
    by rewrite andb_false_r.
Qed.

(** C3.  In every world that a sequence of events (calls of
    [calculateData], [updateData], [dispose] and [componentWillUpdate],
    changes of sources, flushes) leads to from a freshly constructed
    manager, at most one computation is live, and it is the one the manager
    holds.  Inside [calculateData] on the client, after lines 37 to 40 no
    computation is live, and when the call returns the only live
    computation is the one it created; in the other modes the call leaves
    the computations' liveness as it was. *)
Theorem at_most_one_live_computation (server mongo : bool) (srcs : gmap nat jsval)
    (f : option fetch) (p s : jsval) (es : list event) :
  let w := run_events es (fresh_world server mongo srcs f p s) in
  (∀ h1 h2, is_live w h1 = true → is_live w h2 = true → h1 = h2) ∧
  (∀ h, is_live w h = true → computation (manager w) = Some h) ∧
  (∀ h, is_live (after stop_existing_computation w) h = false) ∧
  (∀ h, is_live (after calculateData w) h =
        if negb (isServer w) && bool_decide (is_Some (getMeteorData (component w)))
        then bool_decide (h = length (computations (tracker w)))
        else is_live w h).
Proof.
  intros w.
  assert (manager_inv w) as Hinv by apply run_events_inv, fresh_world_inv.
  split; [|split; [|split]].
  - intros h1 h2 H1 H2. apply Hinv in H1, H2. congruence.
  - apply Hinv.
  - intros h. unfold after. rewrite stop_existing_computation_eq.
    unfold is_live. cbn. by apply stopped_existing_none_live.
  - intros h. by apply calculateData_live.
Qed.

(** ** C7: nothing forces a re-render after [dispose] *)

Lemma flush_not_live h w : is_live w h = false → run_event (Flush h) w = (Normal tt, w).
Proof.
  unfold is_live, live_in, run_event, Tracker_recompute. mrun.
  destruct (computations (tracker w) !! h) as [c|]; [|done].
  intros Hc. destruct (stopped c); [|done]. by rewrite andb_false_r.
Qed.

Lemma run_events_cons e es w :
  run_events (e :: es) w = run_events es (after (run_event e) w).
Proof. reflexivity. Qed.

Lemma quiet_events es w :
  forallb (λ e, negb (recomputes e)) es = true →
  (∀ h, is_live w h = false) →
  forceUpdateCalls (component (run_events es w)) = forceUpdateCalls (component w)
  ∧ ∀ h, is_live (run_events es w) h = false.
Proof.
  revert w. induction es as [|e es IH]; intros w Hes Hdead; [done|].
  cbn in Hes. apply andb_true_iff in Hes as [He Hes]. rewrite run_events_cons.
  assert ((∀ h, is_live (after (run_event e) w) h = false)
          ∧ forceUpdateCalls (component (after (run_event e) w))
            = forceUpdateCalls (component w)) as [Hdead' Hfu'].
  { destruct e as [|v| |np ns|s v|h]; try done.
    - destruct (updateData_frame v w) as (Ht&_&_&_&_&_&_&_&_&_&_&Hfu).
      split; [|exact Hfu]. intros h. unfold is_live, run_event. rewrite Ht. apply Hdead.
    - unfold after, run_event. rewrite dispose_eq. split; [|done].
      intros h. unfold is_live, stopped_existing. cbn.
      destruct (computation (manager w)) as [h0|]; [|apply Hdead].
      rewrite live_in_alter. case_decide; [|apply Hdead].
      destruct (_ !! h0); [|done]. by rewrite stop_computation_stopped.
    - unfold after, run_event. rewrite source_changed_eq. split; [|done].
      intros h. unfold is_live. cbn.
      rewrite live_in_statuses, statuses_changed, <- live_in_statuses. apply Hdead.
    - unfold after. by rewrite flush_not_live. }
  destruct (IH _ Hes Hdead') as [Hfu Hl]. split; [|done]. by rewrite Hfu.
Qed.

Lemma other_events_do_not_force e w :
  is_flush e = false →
  forceUpdateCalls (component (after (run_event e) w)) = forceUpdateCalls (component w).
Proof.
  assert (∀ w, forceUpdateCalls (component (after calculateData w))
               = forceUpdateCalls (component w)) as Hcalc.
  { clear w. intros w. unfold after.
    destruct (getMeteorData (component w)) as [f|] eqn:Hf.
    - destruct (isServer w) eqn:Hs.
      + rewrite (calculateData_server_eq w f), run_fetch_eq by done. by cbn.
      + by rewrite (calculateData_client_eq w f).
    - by rewrite calculateData_no_fetch. }
  intros He. destruct e as [|v| |np ns|s v|h]; try done.
  - unfold after, run_event. mrun. specialize (Hcalc w). unfold after in Hcalc.
    by destruct (calculateData w) as [[?|?] ?].
  - by destruct (updateData_frame v w) as (_&_&_&_&_&_&_&_&_&_&_&?).
  - unfold after, run_event. by rewrite dispose_eq.
  - unfold after, run_event. rewrite componentWillUpdate_eq.
    unfold componentWillUpdate_spec. set (w1 := set_component _ w).
    specialize (Hcalc w1). unfold after in Hcalc.
    destruct (calculateData w1) as [r w2]. cbn [fst snd] in *.
    set (w3 := set_component _ w2).
    assert (forceUpdateCalls (component w3) = forceUpdateCalls (component w)) as H3
      by exact Hcalc.
    destruct r as [v|e]; [|done]. rewrite <- H3.
    by destruct (updateData_frame v w3) as (_&_&_&_&_&_&_&_&_&_&_&?).
Qed.

(** C7.  Take a manager in any world that events lead to from its
    construction, and let [dispose()] run.  Then no computation is live and
    the manager holds none; whatever happens afterwards short of a new
    [calculateData] call (sources change, the Tracker flushes computations,
    [updateData] or [dispose] are called), the count of forced re-renders
    stays what it was and no computation becomes live.  In any world, an
    event other than the flush of a computation (which runs the body of
    lines 49 to 94) leaves the count as it is: the body is the only place
    that calls [forceUpdate]. *)
Theorem no_forceUpdate_after_dispose (server mongo : bool) (srcs : gmap nat jsval)
    (f : option fetch) (p s : jsval) (es es' : list event)
    (Hquiet : forallb (λ e, negb (recomputes e)) es' = true) :
  let w := after dispose (run_events es (fresh_world server mongo srcs f p s)) in
  (∀ h, is_live w h = false) ∧
  computation (manager w) = None ∧
  forceUpdateCalls (component (run_events es' w)) = forceUpdateCalls (component w) ∧
  (∀ h, is_live (run_events es' w) h = false) ∧
  (∀ e w0, is_flush e = false →
     forceUpdateCalls (component (after (run_event e) w0))
     = forceUpdateCalls (component w0)).
Proof.
  intros w.
  assert (manager_inv (run_events es (fresh_world server mongo srcs f p s))) as Hinv
    by apply run_events_inv, fresh_world_inv.
  assert (∀ h, is_live w h = false) as Hdead.
  { intros h. unfold w, after. rewrite dispose_eq. unfold is_live. cbn.
    by apply stopped_existing_none_live. }
  split; [done|]. split.
  { unfold w, after. by rewrite dispose_eq. }
  destruct (quiet_events es' w Hquiet Hdead) as [Hfu Hl].
  split; [done|]. split; [done|]. apply other_events_do_not_force.
Qed.

Lemma no_forceUpdate_after_dispose_witness :
  let f := FReadSource 0 (λ v, FReturn (JObj PlainObject {[ "count" := v ]})) in
  let es' := [SourceChanged 0 (JNum 1); Flush 0] in
  let w0 := run_events [CalculateData] (fresh_world false false ∅ (Some f) JNull JNull) in
  forceUpdateCalls (component (run_events es' w0)) = 1%nat ∧
  forceUpdateCalls (component (run_events es' (after dispose w0))) = 0%nat.
Proof.
  split; [reflexivity|].
  exact (proj1 (proj2 (proj2
    (no_forceUpdate_after_dispose false false ∅
       (Some (FReadSource 0 (λ v, FReturn (JObj PlainObject {[ "count" := v ]}))))
       JNull JNull [CalculateData] [SourceChanged 0 (JNum 1); Flush 0] eq_refl)))).
Defined.

(** ** C9: [calculateData] twice in a row *)

(** C9.  On the client, in any world that events lead to from the
    construction of a manager whose component has a fetch function, two
    calls of [calculateData] in a row both return normally, with the same
    snapshot, and after the second call exactly one computation is live:
    the one the second call created, which the manager holds. *)
Theorem calculateData_twice (mongo : bool) (srcs : gmap nat jsval) (f : fetch)
    (p s : jsval) (es : list event) :
  let w := run_events es (fresh_world false mongo srcs (Some f) p s) in
  let w1 := after calculateData w in
  let w2 := after calculateData w1 in
  (∃ v, result calculateData w = Normal v ∧ result calculateData w1 = Normal v) ∧
  length (computations (tracker w2)) = S (length (computations (tracker w1))) ∧
  computation (manager w2) = Some (length (computations (tracker w1))) ∧
  (∀ h, is_live w2 h = bool_decide (h = length (computations (tracker w1)))).
Proof.
  intros w w1 w2.
  assert (manager_inv w) as Hinv by apply run_events_inv, fresh_world_inv.
  destruct (run_events_config es _ (fresh_world_inv false mongo srcs (Some f) p s))
    as (Hs & _ & Hf). fold w in Hs, Hf. cbn in Hs, Hf.
  assert (manager_inv w1) as Hinv1 by (apply calculateData_inv; exact Hinv).
  destruct (calculateData_config w) as (Hs1 & _ & Hf1). fold w1 in Hs1, Hf1.
  rewrite Hs in Hs1. rewrite Hf in Hf1.
  assert (fetch_of (guarded w1) f = fetch_of (guarded w) f) as Hsame.
  { unfold w1, after. by rewrite (calculateData_client_eq w f). }
  split; [|split; [|split]].
  - eexists. unfold result.
    rewrite (calculateData_client_eq w f), (calculateData_client_eq w1 f) by done.
    cbn. by rewrite Hsame.
  - unfold w2, after. rewrite (calculateData_client_eq w1 f) by done. cbn.
    rewrite length_app, stopped_existing_length. cbn. lia.
  - unfold w2, after. rewrite (calculateData_client_eq w1 f) by done. cbn.
    by rewrite stopped_existing_length.
  - intros h. unfold w2. rewrite calculateData_live by done.
    rewrite Hs1, Hf1. by cbn.
Qed.

(** ** C8: server mode *)

Lemma track_reads_nil cur reads : track_reads cur reads [] = [].
Proof.
  destruct cur as [h|]; [|done]. cbn. by induction reads as [|x reads IH].
Qed.

Lemma calculateData_server_inv w : server_inv w → server_inv (after calculateData w).
Proof.
  intros (Hs & Hcs & Hm). unfold after.
  destruct (getMeteorData (component w)) as [f|] eqn:Hf.
  - rewrite (calculateData_server_eq w f), run_fetch_eq by done. cbn [snd].
    unfold server_inv, world_after_fetch. cbn. by rewrite Hcs, track_reads_nil.
  - by rewrite calculateData_no_fetch.
Qed.

Lemma updateData_server_inv v w : server_inv w → server_inv (after (updateData v) w).
Proof.
  intros (Hs & Hcs & Hm).
  destruct (updateData_frame v w) as (Ht & Hc & Hsv & _).
  unfold server_inv. by rewrite Ht, Hc, Hsv.
Qed.

Lemma run_event_server_inv e w : server_inv w → server_inv (after (run_event e) w).
Proof.
  intros Hinv. destruct e as [|v| |np ns|s v|h].
  - unfold after, run_event. mrun.
    apply calculateData_server_inv in Hinv. unfold after in Hinv.
    by destruct (calculateData w) as [[?|?] ?].
  - by apply updateData_server_inv.
  - destruct Hinv as (Hs & Hcs & Hm). unfold after, run_event. rewrite dispose_eq.
    unfold server_inv, stopped_existing. cbn. by rewrite Hm.
  - unfold after, run_event. rewrite componentWillUpdate_eq.
    unfold componentWillUpdate_spec. set (w1 := set_component _ w).
    assert (server_inv w1) as H1 by done.
    apply calculateData_server_inv in H1. unfold after in H1.
    destruct (calculateData w1) as [r w2]. cbn [fst snd] in *.
    set (w3 := set_component _ w2).
    assert (server_inv w3) as H3 by done.
    destruct r as [v|e]; [|done]. by apply updateData_server_inv.
  - destruct Hinv as (Hs & Hcs & Hm). unfold after, run_event.
    rewrite source_changed_eq. unfold server_inv. cbn. by rewrite Hcs.
  - unfold after. rewrite flush_not_live; [done|].
    destruct Hinv as (Hs & Hcs & Hm). unfold is_live, live_in. by rewrite Hcs.
Qed.

Lemma run_events_server_inv es w : server_inv w → server_inv (run_events es w).
Proof.
  revert w. induction es as [|e es IH]; intros w Hinv; [done|].
  rewrite run_events_cons. by apply IH, run_event_server_inv.
Qed.

(** C8.  When the server flag is true and the component has a fetch
    function, [calculateData] is a call of that function: same completion,
    same world afterwards; so is a second call right after it.  Neither
    call creates or stops a computation, nor changes what the manager
    holds.  From the construction of the manager on, whatever the events,
    the Tracker of a server has no computation and the manager holds
    none. *)
Theorem server_mode_calculateData (w : World) (f : fetch)
    (Hserver : isServer w = true) (Hfetch : getMeteorData (component w) = Some f) :
  let w1 := after calculateData w in
  let w2 := after calculateData w1 in
  calculateData w = run_fetch f w ∧
  calculateData w1 = run_fetch f w1 ∧
  statuses (computations (tracker w1)) = statuses (computations (tracker w)) ∧
  statuses (computations (tracker w2)) = statuses (computations (tracker w)) ∧
  manager w1 = manager w ∧ manager w2 = manager w ∧
  (∀ mongo srcs g p s es,
     let w' := run_events es (fresh_world true mongo srcs g p s) in
     computations (tracker w') = [] ∧ computation (manager w') = None).
Proof.
  intros w1 w2.
  assert (calculateData w = run_fetch f w) as H1 by by apply calculateData_server_eq.
  destruct (calculateData_config w) as (Hs1 & _ & Hf1). fold w1 in Hs1, Hf1.
  rewrite Hserver in Hs1. rewrite Hfetch in Hf1.
  assert (calculateData w1 = run_fetch f w1) as H2 by by apply calculateData_server_eq.
  assert (w1 = world_after_fetch w f) as E1.
  { unfold w1, after. by rewrite H1, run_fetch_eq. }
  assert (w2 = world_after_fetch w1 f) as E2.
  { unfold w2, after. by rewrite H2, run_fetch_eq. }
  destruct (world_after_fetch_frame w f) as (Hst1 & _ & Hm1 & _).
  destruct (world_after_fetch_frame w1 f) as (Hst2 & _ & Hm2 & _).
  rewrite <- E1 in Hst1, Hm1. rewrite <- E2 in Hst2, Hm2.
  split; [done|]. split; [done|]. split; [done|].
  split; [by rewrite Hst2|]. split; [done|]. split; [by rewrite Hm2|].
  intros mongo srcs g p s es w'.
  assert (server_inv w') as (_ & ? & ?); [|done].
  by apply run_events_server_inv.
Qed.

Lemma server_mode_calculateData_witness :
  let f := FReadSource 0 (λ v, FReturn (JObj PlainObject {[ "count" := v ]})) in
  let w := fresh_world true false {[ 0%nat := JNum 7 ]} (Some f) JNull JNull in
  result calculateData w = Normal (JObj PlainObject {[ "count" := JNum 7 ]}) ∧
  calculateData w = run_fetch f w.
Proof.
  split; [reflexivity|].
  exact (proj1 (server_mode_calculateData
    (fresh_world true false {[ 0%nat := JNum 7 ]}
       (Some (FReadSource 0 (λ v, FReturn (JObj PlainObject {[ "count" := v ]}))))
       JNull JNull)
    (FReadSource 0 (λ v, FReturn (JObj PlainObject {[ "count" := v ]})))
    eq_refl eq_refl)).
Defined.

(** ** C5: a component with no fetch function *)

Lemma recompute_no_fetch w :
  no_fetch_inv w →
  let w' := after (updateData JNull) w in
  result (updateData JNull) w = Normal tt ∧ no_fetch_inv w'
  ∧ failedToGetData (component w') = JBool false.
Proof.
  intros (Hf & Hd & Ho). cbn zeta. unfold result, after, no_fetch_inv.
  rewrite updateData_eq. unfold updateData_spec. rewrite Ho. by cbn.
Qed.

Lemma componentWillUpdate_no_fetch np ns w :
  no_fetch_inv w →
  let w' := after (componentWillUpdate np ns) w in
  no_fetch_inv w' ∧ failedToGetData (component w') = JBool false.
Proof.
  intros Hinv. cbn zeta. unfold after. rewrite componentWillUpdate_eq.
  unfold componentWillUpdate_spec.
  rewrite calculateData_no_fetch by apply Hinv. cbn [fst snd].
  match goal with |- context [updateData JNull ?w3] =>
    destruct (recompute_no_fetch w3) as (_ & H & Hfl) end; [|done].
  destruct Hinv as (Hf & Hd & Ho). by destruct w as [? ? ? ? ? [] ?].
Qed.

(** C5.  For a component with no fetch function, after
    [componentWillMount] and any number of [componentWillUpdate] rounds
    (each one a [calculateData] followed by [updateData] of its result),
    [calculateData] returns [null] and changes nothing, [data] is [{}] and
    the failure flag is [false]. *)
Theorem no_fetch_function (server mongo : bool) (srcs : gmap nat jsval)
    (p s : jsval) (rounds : list (jsval * jsval)) :
  let mounted := after componentWillMount (fresh_world server mongo srcs None p s) in
  let w := foldl (λ w ps, after (componentWillUpdate ps.1 ps.2) w) mounted rounds in
  calculateData w = (Normal JNull, w) ∧
  data (component w) = ∅ ∧
  failedToGetData (component w) = JBool false.
Proof.
  intros mounted w.
  assert (no_fetch_inv mounted ∧ failedToGetData (component mounted) = JBool false)
    as Hm by (by vm_compute).
  assert (no_fetch_inv w ∧ failedToGetData (component w) = JBool false) as [Hinv Hfl].
  { unfold w. clearbody mounted. clear w. revert mounted Hm.
    induction rounds as [|[np ns] rounds IH]; intros w0 Hw0; [done|].
    cbn [foldl]. apply IH. apply componentWillUpdate_no_fetch, Hw0. }
  split; [apply calculateData_no_fetch, Hinv|]. split; [apply Hinv|done].
Qed.

(** ** C2: a failing fetch function *)

Lemma is_mapping_spec v : is_mapping v = true ↔ is_snapshot v.
Proof.
  unfold is_snapshot. split.
  - unfold is_mapping.
    destruct v as [| |b|n|s|k m]; cbn; rewrite ?andb_false_r; try done.
    intros Hk. exists k, m. split; [done|]. by destruct k.
  - intros (k & m & -> & Hk). by destruct k.
Qed.

Lemma first_run_outcome_fails w f :
  fetch_fails w f →
  first_run_outcome (fetch_of (guarded w) f).1.1
  = (JUndefined,
     [ConsoleError exception_label (logged_error (result (run_fetch f) (guarded w)))]).
Proof.
  unfold fetch_fails, result. rewrite run_fetch_eq. cbn [fst].
  unfold first_run_outcome, logged_error.
  destruct ((fetch_of (guarded w) f).1.1) as [v|e]; [|done].
  intros Hv. destruct (is_mapping v) eqn:Hm; [|done].
  by apply is_mapping_spec in Hm.
Qed.

(** C2.  On the client, [calculateData] of a component with a fetch
    function always returns normally, whatever the function does.  When
    the function throws, or returns something that is not a mapping, the
    call returns [undefined], the console gets one more entry, the error
    that was caught (what the function threw, or the "Expected object"
    error), the computation the call created is still live (the exception
    did not leave its body), and the [updateData] call that follows returns
    normally and sets the failure flag to [true]. *)
Theorem calculateData_catches (w : World) (f : fetch)
    (Hclient : isServer w = false) (Hfetch : getMeteorData (component w) = Some f) :
  let w1 := after calculateData w in
  let w2 := after (updateData JUndefined) w1 in
  (∃ v, result calculateData w = Normal v) ∧
  (fetch_fails w f →
     result calculateData w = Normal JUndefined ∧
     console w1
     = console w
       ++ [ConsoleError exception_label
             (logged_error (result (run_fetch f) (guarded w)))] ∧
     is_live w1 (length (computations (tracker w))) = true ∧
     computation (manager w1) = Some (length (computations (tracker w))) ∧
     result (updateData JUndefined) w1 = Normal tt ∧
     failedToGetData (component w2) = JBool true).
Proof.
  intros w1 w2. split.
  { eexists. unfold result. by rewrite (calculateData_client_eq w f). }
  intros Hfail. pose proof (first_run_outcome_fails w f Hfail) as Ho.
  assert (result calculateData w = Normal JUndefined) as Hr.
  { unfold result. rewrite (calculateData_client_eq w f) by done. cbn. by rewrite Ho. }
  split; [done|]. split.
  { unfold w1, after. rewrite (calculateData_client_eq w f) by done. cbn.
    rewrite Ho. unfold cursor_warnings. by cbn. }
  split.
  { unfold w1, after. rewrite (calculateData_client_eq w f) by done.
    unfold is_live. cbn. rewrite live_in_snoc, stopped_existing_length.
    rewrite decide_True by done.
    by destruct (created_computation_status (fetch_of (guarded w) f).2) as [-> _]. }
  split.
  { unfold w1, after. rewrite (calculateData_client_eq w f) by done. cbn.
    by rewrite stopped_existing_length. }
  unfold w2, result, after. rewrite updateData_eq. unfold updateData_spec.
  cbn [is_undefined empty_object delete_loop].
  by destruct (truthy (oldData (manager w1))).
Qed.

Lemma calculateData_catches_witness :
  let f := FReadSource 0 (λ v, FThrow (Thrown v)) in
  let w := fresh_world false true {[ 0%nat := JStr "boom" ]} (Some f) JNull JNull in
  fetch_fails w f ∧
  result calculateData w = Normal JUndefined ∧
  console (after calculateData w)
  = [ConsoleError exception_label (Thrown (JStr "boom"))].
Proof.
  split; [exact I|]. split; [|reflexivity].
  exact (proj1 (proj2 (calculateData_catches
    (fresh_world false true {[ 0%nat := JStr "boom" ]}
       (Some (FReadSource 0 (λ v, FThrow (Thrown v)))) JNull JNull)
    (FReadSource 0 (λ v, FThrow (Thrown v))) eq_refl eq_refl) I)).
Defined.

(** ** C6: the [setState] guard *)

(** C6.  On the client, for every fetch function: the first run gives
    [data] what the run of the function with the guard in the [setState]
    slot comes to; a call of [setState] while the guard is in the slot
    throws the error whose message warns of the endless loop, and changes
    nothing; a function that calls [setState] and lets the error go makes
    [calculateData] log that very error and return [undefined]; and both
    the first run and [calculateData] leave the component as it was, the
    [setState] slot included, whether the function returned or threw. *)
Theorem setState_guard_scoped (w : World) (f : fetch)
    (Hclient : isServer w = false) (Hfetch : getMeteorData (component w) = Some f) :
  let w1 := after calculateData w in
  result first_run w
  = Normal (first_run_outcome (result (run_fetch f) (guarded w))).1 ∧
  (∀ arg w0,
     call_setState arg (guarded w0)
     = (Abrupt (JsError setState_guard_message), guarded w0)) ∧
  String.substring 68 12 setState_guard_message = "endless loop" ∧
  (∀ arg k, f = FSetState arg k FThrow →
     result calculateData w = Normal JUndefined ∧
     console w1
     = console w ++ [ConsoleError exception_label (JsError setState_guard_message)]) ∧
  component (after first_run w) = component w ∧
  component w1 = component w ∧
  setState (component w1) = setState (component w).
Proof.
  intros w1.
  assert (component w1 = component w) as Hc.
  { unfold w1, after. by rewrite (calculateData_client_eq w f). }
  split.
  { unfold result. rewrite (first_run_eq w f), run_fetch_eq by done. done. }
  split.
  { intros arg w0. unfold guarded. by mrun. }
  split; [reflexivity|]. split.
  { intros arg k ->. unfold w1, result, after.
    rewrite (calculateData_client_eq w _) by done. done. }
  split.
  { unfold after. by rewrite (first_run_eq w f). }
  split; [done|]. by rewrite Hc.
Qed.

Lemma setState_guard_scoped_witness :
  let f := FSetState JNull (FReturn empty_object) FThrow in
  let w := fresh_world false false ∅ (Some f) JNull JNull in
  setState (component w) = HostFunction 0 ∧
  setState (component (after calculateData w)) = HostFunction 0 ∧
  result calculateData w = Normal JUndefined.
Proof.
  split; [reflexivity|]. split.
  - exact (proj2 (proj2 (proj2 (proj2 (proj2 (proj2
      (setState_guard_scoped
         (fresh_world false false ∅
            (Some (FSetState JNull (FReturn empty_object) FThrow)) JNull JNull)
         (FSetState JNull (FReturn empty_object) FThrow) eq_refl eq_refl))))))).
  - reflexivity.
Defined.

(** * Further properties *)

(** ** More of [updateData] and [dispose] *)

Lemma delete_absent_self m d : delete_absent (map_to_list m) m d = d.
Proof.
  apply map_eq. intros key. rewrite delete_absent_lookup.
  rewrite decide_False; [done|]. intros [Hin Hnone].
  apply map_to_list_keys in Hin as [x Hx].
  by rewrite (has_property_own m key x Hx) in Hnone.
Qed.

Lemma union_absorb (m d : gmap string jsval) :
  (∀ key v, m !! key = Some v → d !! key = Some v) → m ∪ d = d.
Proof.
  intros H. apply map_eq. intros key. rewrite lookup_union.
  destruct (m !! key) as [v|] eqn:Hm.
  - rewrite (H key v Hm). done.
  - by destruct (d !! key).
Qed.

Lemma updateData_mapping_eq v k m w :
  (if is_undefined v then empty_object else v) = JObj k m →
  updateData v w
  = (Normal tt,
     set_component
       (with_failedToGetData (JBool (is_undefined v))
          (with_data (patched (oldData (manager w)) m (data (component w)))
             (component w)))
       (set_manager (with_oldData (JObj k m) (manager w)) w)).
Proof.
  intros Hv. rewrite updateData_eq. unfold updateData_spec, patched. rewrite Hv.
  cbn [enumerable_entries delete_loop]. rewrite merge_entries_map.
  by destruct (truthy (oldData (manager w))).
Qed.

Lemma patched_contains old m d key x :
  m !! key = Some x → patched old m d !! key = Some x.
Proof.
  intros Hx. unfold patched. destruct (truthy old).
  - rewrite delete_absent_lookup, decide_False
      by (intros [_ Hp]; by rewrite (has_property_own m key x Hx) in Hp).
    rewrite lookup_union, Hx. by destruct (d !! key).
  - rewrite lookup_union, Hx. by destruct (d !! key).
Qed.

Lemma patched_again k m d :
  patched (JObj k m) m d = d ↔ (∀ key x, m !! key = Some x → d !! key = Some x).
Proof.
  unfold patched. cbn [truthy enumerable_entries]. rewrite delete_absent_self.
  split.
  - intros Hd key x Hx. rewrite <- Hd, lookup_union, Hx. by destruct (d !! key).
  - apply union_absorb.
Qed.

(** X1.  Merging the same snapshot (a mapping, or [undefined]) a second
    time changes nothing: the second [updateData] call returns normally and
    leaves the world exactly as the first call left it. *)
Theorem updateData_idempotent (w : World) (v : jsval)
    (Hv : is_undefined v = true ∨ ∃ k m, v = JObj k m) :
  updateData v (after (updateData v) w) = (Normal tt, after (updateData v) w).
Proof.
  assert (∃ k m, (if is_undefined v then empty_object else v) = JObj k m)
    as (k & m & Hv').
  { destruct Hv as [->|(k & m & ->)]; cbn; eauto. }
  unfold after. rewrite (updateData_mapping_eq v k m w Hv'). cbn [snd].
  rewrite (updateData_mapping_eq v k m _ Hv').
  cbn [set_component set_manager manager component with_oldData oldData
       with_failedToGetData with_data data].
  rewrite (proj2 (patched_again k m _)) by (intros key x; apply patched_contains).
  by destruct w as [? ? ? ? ? [] []].
Qed.

Lemma updateData_idempotent_witness :
  let w := fresh_world false false ∅ None JNull JNull in
  let S := JObj PlainObject {[ "count" := JNum 1 ]} in
  data (component (after (updateData S) (after (updateData S) w)))
  = {[ "count" := JNum 1 ]} ∧
  updateData S (after (updateData S) w) = (Normal tt, after (updateData S) w).
Proof.
  split; [by vm_compute|].
  apply (updateData_idempotent (fresh_world false false ∅ None JNull JNull)
           (JObj PlainObject {[ "count" := JNum 1 ]})).
  right. eauto.
Defined.

(** X2.  [updateData] with [null], a boolean or a number: when the stored
    previous snapshot is falsy or has no enumerable key, the call returns
    normally, leaves [data] alone, stores the argument as the previous
    snapshot and sets the failure flag to [false]; when the previous
    snapshot has a key, the first [key in newData] throws a TypeError and
    the world is exactly what it was: nothing is written, the failure flag
    and the previous snapshot included. *)
Theorem updateData_primitive (w : World) (v : jsval)
    (Hv : is_plain_primitive v = true) :
  updateData v w =
  match (if truthy (oldData (manager w))
         then enumerable_entries (oldData (manager w)) else []) with
  | [] =>
      (Normal tt,
       set_component (with_failedToGetData (JBool false) (component w))
         (set_manager (with_oldData v (manager w)) w))
  | _ :: _ => (Abrupt (TypeError_in v), w)
  end.
Proof.
  rewrite updateData_eq. unfold updateData_spec.
  destruct v as [| |b|n|s|k m]; try done; cbn [is_undefined enumerable_entries];
    destruct (truthy (oldData (manager w)));
    try destruct (enumerable_entries (oldData (manager w))) as [|kv l];
    cbn; by destruct w as [? ? ? ? ? [] []].
Qed.

Lemma updateData_primitive_witness :
  let w := after (updateData (JObj PlainObject {[ "b" := JNum 1; "a" := JNum 2 ]}))
             (fresh_world true false ∅ None JNull JNull) in
  updateData (JNum 5) w = (Abrupt (TypeError_in (JNum 5)), w).
Proof.
  exact (updateData_primitive
           (after (updateData (JObj PlainObject {[ "b" := JNum 1; "a" := JNum 2 ]}))
              (fresh_world true false ∅ None JNull JNull))
           (JNum 5) eq_refl).
Defined.

(** X3.  [dispose] is idempotent, always returns normally, stops the
    computation the manager holds and no other, forgets it, and touches
    nothing else: the component, the console, the sources and the stored
    previous snapshot are what they were. *)
Theorem dispose_idempotent (w : World) :
  let w' := after dispose w in
  result dispose w = Normal tt ∧
  dispose w' = (Normal tt, w') ∧
  computation (manager w') = None ∧
  (∀ h, is_live w' h
        = is_live w h && negb (bool_decide (computation (manager w) = Some h))) ∧
  component w' = component w ∧ console w' = console w ∧ sources w' = sources w ∧
  oldData (manager w') = oldData (manager w).
Proof.
  cbn zeta. unfold result, after. rewrite !dispose_eq. cbn [fst snd].
  split; [done|]. split.
  { by destruct w as [? ? ? [] ? ? []]. }
  split; [done|]. split; [|done].
  intros h. unfold is_live, stopped_existing. cbn.
  destruct (computation (manager w)) as [h0|].
  - rewrite live_in_alter. case_decide as Hh.
    + subst. rewrite bool_decide_eq_true_2 by done. rewrite andb_false_r.
      destruct (_ !! h); [|done]. by rewrite stop_computation_stopped.
    + rewrite bool_decide_eq_false_2 by congruence. by rewrite andb_true_r.
  - rewrite bool_decide_eq_false_2 by done. by rewrite andb_true_r.
Qed.

(** ** The cursor warning *)

Lemma cursor_warnings_replicate (v : jsval) :
  truthy v = true →
  cursor_warnings true v = replicate (cursor_count v) (ConsoleWarn cursor_warning_message).
Proof.
  intros Hv. unfold cursor_warnings, cursor_count. rewrite Hv. cbn [andb].
  induction (enumerable_entries v) as [|kv l IH]; [done|].
  cbn [flat_map]. rewrite filter_cons.
  destruct (instanceof_Cursor kv.2) eqn:Hc.
  - rewrite decide_True by done. cbn. by rewrite IH.
  - rewrite decide_False by done. by rewrite IH.
Qed.

(** X4.  On the client, when the fetch function returns a mapping, the
    call returns that mapping as it is and logs no error; if the mongo
    package is loaded it logs one warning for each value of the mapping
    that is a cursor, and none otherwise.  The warning is advisory: the
    cursors stay in the result. *)
Theorem cursor_warnings_counted (w : World) (f : fetch) (v : jsval)
    (Hclient : isServer w = false) (Hfetch : getMeteorData (component w) = Some f)
    (Hrun : result (run_fetch f) (guarded w) = Normal v) (Hv : is_snapshot v) :
  result calculateData w = Normal v ∧
  console (after calculateData w)
  = console w
    ++ replicate (if mongoLoaded w then cursor_count v else 0)
         (ConsoleWarn cursor_warning_message).
Proof.
  unfold result in Hrun. rewrite run_fetch_eq in Hrun. cbn [fst] in Hrun.
  apply is_mapping_spec in Hv as Hm.
  assert (truthy v = true) as Ht by (by destruct Hv as (k & m & -> & _)).
  unfold result, after. rewrite (calculateData_client_eq w f) by done.
  unfold calculateData_client. cbn [fst snd console]. rewrite Hrun.
  unfold first_run_outcome. rewrite Hm. cbn [fst snd app]. split; [done|].
  destruct (mongoLoaded w).
  - by rewrite cursor_warnings_replicate.
  - unfold cursor_warnings. by rewrite andb_false_r.
Qed.

Lemma cursor_warnings_counted_witness :
  let S := JObj PlainObject
             {[ "tasks" := JObj MongoCursor ∅; "n" := JNum 2;
                "lists" := JObj MongoCursor ∅ ]} in
  let w := fresh_world false true ∅ (Some (FReturn S)) JNull JNull in
  cursor_count S = 2%nat ∧
  console (after calculateData w)
  = [ConsoleWarn cursor_warning_message; ConsoleWarn cursor_warning_message].
Proof.
  split; [by vm_compute|].
  exact (proj2 (cursor_warnings_counted
    (fresh_world false true ∅
       (Some (FReturn (JObj PlainObject
                         {[ "tasks" := JObj MongoCursor ∅; "n" := JNum 2;
                            "lists" := JObj MongoCursor ∅ ]}))) JNull JNull)
    (FReturn (JObj PlainObject
                {[ "tasks" := JObj MongoCursor ∅; "n" := JNum 2;
                   "lists" := JObj MongoCursor ∅ ]}))
    (JObj PlainObject
       {[ "tasks" := JObj MongoCursor ∅; "n" := JNum 2; "lists" := JObj MongoCursor ∅ ]})
    eq_refl eq_refl eq_refl
    (ex_intro _ PlainObject (ex_intro _ _ (conj eq_refl (λ H, eq_ind PlainObject
       (λ k, match k with PlainObject => True | _ => False end) I _ H)))))).
Defined.

(** ** The lifecycle hooks *)

Lemma calculateData_frame w :
  let w' := after calculateData w in
  props (component w') = props (component w)
  ∧ state (component w') = state (component w)
  ∧ data (component w') = data (component w)
  ∧ failedToGetData (component w') = failedToGetData (component w)
  ∧ setState (component w') = setState (component w)
  ∧ oldData (manager w') = oldData (manager w)
  ∧ sources w' = sources w.
Proof.
  cbn zeta. unfold after.
  destruct (getMeteorData (component w)) as [f|] eqn:Hf.
  - destruct (isServer w) eqn:Hs.
    + rewrite (calculateData_server_eq w f), run_fetch_eq by done. cbn [snd].
      destruct (world_after_fetch_frame w f)
        as (_ & _ & -> & _ & _ & -> & _ & _ & -> & -> & -> & -> & -> & _).
      done.
    + by rewrite (calculateData_client_eq w f).
  - by rewrite calculateData_no_fetch.
Qed.

(** X5.  [componentWillUpdate] leaves [this.props] and [this.state] as
    they were, whether it returns or throws.  When [calculateData], run
    with the next props and state in place, throws (on the server the fetch
    function's exception is not caught), the hook throws the same exception
    and [updateData] is not called: [data], the failure flag and the stored
    previous snapshot are what they were. *)
Theorem componentWillUpdate_restores (w : World) (nextProps nextState : jsval) :
  let w' := after (componentWillUpdate nextProps nextState) w in
  props (component w') = props (component w) ∧
  state (component w') = state (component w) ∧
  (∀ e, result calculateData (with_next nextProps nextState w) = Abrupt e →
        result (componentWillUpdate nextProps nextState) w = Abrupt e ∧
        data (component w') = data (component w) ∧
        failedToGetData (component w') = failedToGetData (component w) ∧
        oldData (manager w') = oldData (manager w)).
Proof.
  cbn zeta. unfold after, result. rewrite componentWillUpdate_eq.
  unfold componentWillUpdate_spec. fold (with_next nextProps nextState w).
  destruct (calculateData_frame (with_next nextProps nextState w))
    as (_ & _ & Hd & Hfl & _ & Ho & _).
  unfold after in *.
  destruct (calculateData (with_next nextProps nextState w)) as [r w2].
  cbn [fst snd] in *.
  set (w3 := set_component _ w2).
  destruct r as [v|e].
  - destruct (updateData_frame v w3) as (_&_&_&_&_&_&_&Hp&Hs&_).
    unfold after in *. rewrite Hp, Hs. split; [done|]. split; [done|]. by intros e.
  - split; [done|]. split; [done|]. intros e' [= <-]. done.
Qed.

Lemma componentWillUpdate_restores_witness :
  let f := FReadProps (λ p _, FThrow (Thrown p)) in
  let w := fresh_world true false ∅ (Some f) (JStr "old") JNull in
  result (componentWillUpdate (JStr "new") JNull) w = Abrupt (Thrown (JStr "new")) ∧
  props (component (after (componentWillUpdate (JStr "new") JNull) w)) = JStr "old".
Proof.
  split.
  - exact (proj1 (proj2 (proj2 (componentWillUpdate_restores
      (fresh_world true false ∅ (Some (FReadProps (λ p _, FThrow (Thrown p))))
         (JStr "old") JNull) (JStr "new") JNull)) (Thrown (JStr "new")) eq_refl)).
  - reflexivity.
Defined.

(** X6.  The fetch function sees the next props and state.  On the
    client, for a fetch function that computes a mapping from [this.props]
    and [this.state], [componentWillUpdate] returns normally, clears the
    failure flag, and afterwards [data] binds every key of the mapping
    computed from the next props and state to its value there. *)
Theorem componentWillUpdate_sees_next (w : World) (nextProps nextState : jsval)
    (g : jsval → jsval → gmap string jsval)
    (Hclient : isServer w = false)
    (Hfetch : getMeteorData (component w)
              = Some (FReadProps (λ p s, FReturn (JObj PlainObject (g p s))))) :
  let w' := after (componentWillUpdate nextProps nextState) w in
  result (componentWillUpdate nextProps nextState) w = Normal tt ∧
  failedToGetData (component w') = JBool false ∧
  oldData (manager w') = JObj PlainObject (g nextProps nextState) ∧
  (∀ key x, g nextProps nextState !! key = Some x →
            data (component w') !! key = Some x).
Proof.
  cbn zeta. unfold after, result. rewrite componentWillUpdate_eq.
  unfold componentWillUpdate_spec.
  rewrite (calculateData_client_eq _ (FReadProps (λ p s, FReturn (JObj PlainObject (g p s)))))
    by done.
  cbn [fst snd calculateData_client first_run_outcome fetch_of fetch_trace guarded
       set_component component with_props_state with_setState props state sources
       setState is_mapping truthy typeof andb String.eqb Ascii.eqb Bool.eqb].
  match goal with |- context [updateData ?v ?w3] =>
    rewrite (updateData_mapping_eq v PlainObject (g nextProps nextState) w3) by done
  end.
  cbn [fst snd set_component component with_failedToGetData failedToGetData
       set_manager manager with_oldData oldData with_data data is_undefined].
  split; [done|]. split; [done|]. split; [done|].
  intros key x. apply patched_contains.
Qed.

Lemma componentWillUpdate_sees_next_witness :
  let f := FReadProps (λ p _, FReturn (JObj PlainObject {[ "id" := p ]})) in
  let w := after componentWillMount
             (fresh_world false false ∅ (Some f) (JNum 1) JNull) in
  data (component w) = {[ "id" := JNum 1 ]} ∧
  data (component (after (componentWillUpdate (JNum 2) JNull) w)) !! "id"
  = Some (JNum 2).
Proof.
  split; [by vm_compute|].
  exact (proj2 (proj2 (proj2 (componentWillUpdate_sees_next
    (after componentWillMount
       (fresh_world false false ∅
          (Some (FReadProps (λ p _, FReturn (JObj PlainObject {[ "id" := p ]}))))
          (JNum 1) JNull))
    (JNum 2) JNull (λ p _, {[ "id" := p ]}) eq_refl eq_refl))) "id" (JNum 2) eq_refl).
Defined.

(** ** Flushes and dependencies *)

Lemma flush_spec_pending h w :
  flush_spec h w
  = if pending w h
    then set_component
           (with_forceUpdateCalls (S (forceUpdateCalls (component w))) (component w))
           (set_tracker
              (with_computations
                 (alter stop_computation h
                    (alter (with_invalidated false) h (computations (tracker w))))
                 (tracker w))
              w)
    else w.
Proof.
  unfold flush_spec, pending. by destruct (computations (tracker w) !! h).
Qed.

Lemma pending_not_live w h : is_live w h = false → pending w h = false.
Proof.
  unfold is_live, live_in, pending. destruct (_ !! h) as [c|]; [|done].
  intros Hc. destruct (stopped c); [|done]. by rewrite andb_false_r.
Qed.

(** X7.  The computation is single-shot.  In any world that events lead to
    from the construction of the manager, the flush of a computation asks
    for exactly one forced re-render when the computation is pending
    (invalidated and not stopped) and for none otherwise; afterwards the
    computation is stopped and no longer pending, and flushing it again
    does nothing at all. *)
Theorem flush_single_shot (server mongo : bool) (srcs : gmap nat jsval)
    (f : option fetch) (p s : jsval) (es : list event) (h : nat) :
  let w := run_events es (fresh_world server mongo srcs f p s) in
  let w' := after (run_event (Flush h)) w in
  forceUpdateCalls (component w')
  = (forceUpdateCalls (component w) + (if pending w h then 1 else 0))%nat ∧
  (pending w h = true → is_live w' h = false) ∧
  pending w' h = false ∧
  run_event (Flush h) w' = (Normal tt, w').
Proof.
  intros w w'.
  assert (manager_inv w) as Hinv by apply run_events_inv, fresh_world_inv.
  assert (w' = flush_spec h w) as Hw'.
  { unfold w', after. by rewrite flush_eq by apply Hinv. }
  assert (pending w h = true → is_live w' h = false) as Hstop.
  { intros Hp. rewrite Hw', flush_spec_pending, Hp. unfold is_live. cbn.
    rewrite live_in_alter, decide_True by done.
    rewrite list_lookup_alter_eq. unfold pending in Hp.
    destruct (computations (tracker w) !! h) as [c|]; [|done]. cbn.
    by rewrite stop_computation_stopped. }
  assert (pending w' h = false) as Hp'.
  { destruct (pending w h) eqn:Hp.
    - by apply pending_not_live, Hstop.
    - by rewrite Hw', flush_spec_pending, Hp. }
  split.
  { rewrite Hw', flush_spec_pending. destruct (pending w h); cbn; lia. }
  split; [done|]. split; [done|].
  rewrite flush_eq by apply flush_inv, Hinv. fold w'.
  by rewrite flush_spec_pending, Hp'.
Qed.

Lemma tracked_deps reads c :
  deps (tracked reads c) = list_to_set reads ∪ deps c.
Proof.
  unfold tracked. revert c. induction reads as [|x reads IH]; intros c.
  - cbn. set_solver.
  - cbn [foldl]. rewrite IH. cbn. set_solver.
Qed.

Lemma tracked_status reads c :
  stopped (tracked reads c) = stopped c ∧ invalidated (tracked reads c) = invalidated c
  ∧ firstRun (tracked reads c) = firstRun c.
Proof.
  unfold tracked. revert c. induction reads as [|x reads IH]; intros c; [done|].
  cbn [foldl]. by destruct (IH (with_dep x c)) as (-> & -> & ->).
Qed.

(** X8.  A forced re-render is asked for exactly when a source that the
    fetch function read has changed.  On the client, after a
    [calculateData] call, the change of a source followed by the flush of
    the computation that the call created raises the count of forced
    re-renders by one if the run of the fetch function read that source,
    and leaves it as it is otherwise. *)
Theorem rerender_iff_source_read (mongo : bool) (srcs : gmap nat jsval) (f : fetch)
    (p s : jsval) (es : list event) (x : nat) (v : jsval) :
  let w := run_events es (fresh_world false mongo srcs (Some f) p s) in
  let w1 := after calculateData w in
  let h := length (computations (tracker w)) in
  computation (manager w1) = Some h ∧
  forceUpdateCalls (component (run_events [SourceChanged x v; Flush h] w1))
  = (forceUpdateCalls (component w)
     + (if bool_decide (x ∈ sources_read w f) then 1 else 0))%nat.
Proof.
  intros w w1 h.
  assert (manager_inv w) as Hinv by apply run_events_inv, fresh_world_inv.
  destruct (run_events_config es _ (fresh_world_inv false mongo srcs (Some f) p s))
    as (Hs & _ & Hf). fold w in Hs, Hf. cbn in Hs, Hf.
  assert (manager_inv w1) as Hinv1 by (apply calculateData_inv; exact Hinv).
  assert (w1 = (calculateData_client w f).2) as Hw1.
  { unfold w1, after. by rewrite (calculateData_client_eq w f). }
  split.
  { rewrite Hw1. cbn. by rewrite stopped_existing_length. }
  cbn [run_events foldl].
  set (w2 := after (run_event (SourceChanged x v)) w1).
  assert (manager_inv w2) as Hinv2 by (by apply run_event_inv).
  unfold after at 1. rewrite flush_eq by apply Hinv2. cbn [snd].
  rewrite flush_spec_pending.
  assert (pending w2 h = bool_decide (x ∈ sources_read w f)) as ->.
  { unfold w2, after, run_event. rewrite source_changed_eq. unfold pending. cbn.
    rewrite list_lookup_fmap, Hw1. cbn.
    replace h with (length (stopped_existing (manager w) (computations (tracker w))))
      by apply stopped_existing_length.
    rewrite lookup_snoc. cbn. unfold created_computation. cbn.
    rewrite tracked_deps. fold (sources_read w f).
    destruct (tracked_status (sources_read w f) (mkComputation false false true ∅))
      as (Hst & Hi & _). cbn in Hst, Hi.
    case_decide as Hx.
    - rewrite bool_decide_eq_true_2 by set_solver.
      unfold invalidate_computation. cbn. rewrite Hi. cbn. by rewrite Hst.
    - rewrite bool_decide_eq_false_2 by set_solver. cbn. by rewrite Hi. }
  assert (forceUpdateCalls (component w2) = forceUpdateCalls (component w)) as Hfu.
  { unfold w2, after, run_event. rewrite source_changed_eq, Hw1. done. }
  destruct (bool_decide (x ∈ sources_read w f)); cbn; rewrite Hfu; lia.
Qed.

(** ** What is in [data] *)

Lemma other_events_frame e w :
  manager_inv w → merges e = false → same_merge_state w (after (run_event e) w).
Proof.
  intros Hinv He. destruct e as [|v| |np ns|s v|h].
  - unfold after, run_event. mrun.
    destruct (calculateData_frame w) as (_ & _ & ? & ? & _ & ? & _).
    unfold after in *. by destruct (calculateData w) as [[?|?] ?].
  - done.
  - unfold after, run_event. by rewrite dispose_eq.
  - done.
  - unfold after, run_event. by rewrite source_changed_eq.
  - unfold after. rewrite flush_eq by apply Hinv. cbn [snd].
    unfold flush_spec. destruct (_ !! h) as [c|]; [|done]. by destruct (_ && _).
Qed.

(** X9.  Only a merge writes [data].  In any world that events lead to
    from the construction of the manager, an event that is neither an
    [updateData] call nor a [componentWillUpdate] ([calculateData],
    [dispose], the change of a source, a flush) leaves [data], the failure
    flag and the stored previous snapshot as they were. *)
Theorem only_merges_write_data (server mongo : bool) (srcs : gmap nat jsval)
    (f : option fetch) (p s : jsval) (es : list event) (e : event)
    (He : merges e = false) :
  let w := run_events es (fresh_world server mongo srcs f p s) in
  let w' := after (run_event e) w in
  data (component w') = data (component w) ∧
  failedToGetData (component w') = failedToGetData (component w) ∧
  oldData (manager w') = oldData (manager w).
Proof.
  intros w w'. apply other_events_frame; [|done].
  apply run_events_inv, fresh_world_inv.
Qed.

Lemma only_merges_write_data_witness :
  let w := run_events [WillUpdate JNull JNull; SourceChanged 0 (JBool true)]
             (fresh_world false false ∅ (Some count_then_name) JNull JNull) in
  data (component w) = {[ "count" := JNum 1 ]} ∧
  data (component (after (run_event (Flush 0)) w)) = data (component w).
Proof.
  split; [by vm_compute|].
  exact (proj1 (only_merges_write_data false false ∅ (Some count_then_name) JNull JNull
    [WillUpdate JNull JNull; SourceChanged 0 (JBool true)] (Flush 0) eq_refl)).
Defined.

Lemma patched_replaces k m0 m d key :
  (∀ key, inherited key = false → d !! key = m0 !! key) →
  inherited key = false →
  patched (JObj k m0) m d !! key = m !! key.
Proof.
  intros Hd Hi. unfold patched. cbn [truthy enumerable_entries].
  rewrite delete_absent_lookup, lookup_union.
  destruct (m !! key) as [x|] eqn:Hm.
  - rewrite decide_False
      by (intros [_ Hp]; by rewrite (has_property_own m key x Hm) in Hp).
    by destruct (d !! key).
  - destruct (m0 !! key) as [y|] eqn:H0.
    + rewrite decide_True; [done|]. split.
      * apply map_to_list_keys. rewrite H0. eauto.
      * by apply has_property_false.
    + rewrite (Hd key Hi), H0. by destruct (decide _).
Qed.

Lemma patched_first m : patched JNull m ∅ = m.
Proof. unfold patched. cbn. apply map_eq. intros key. rewrite lookup_union.
  rewrite lookup_empty. by destruct (m !! key). Qed.

Lemma plain_fetch_trace srcs p s mut f :
  plain_fetch f →
  match (fetch_trace srcs p s mut f).1.1 with
  | Normal v => instanceof_Cursor v = false
  | Abrupt _ => True
  end.
Proof.
  induction 1 as [v Hv|e|x k _ IH|k _ IH|arg k handler _ IHk _ IHh]; cbn; try done.
  - apply IH.
  - apply IH.
  - destruct mut; [apply IHk|apply IHh].
Qed.

Lemma calculateData_client_value w f :
  getMeteorData (component w) = Some f → isServer w = false → plain_fetch f →
  ∃ v m, result calculateData w = Normal v
         ∧ (if is_undefined v then empty_object else v) = JObj PlainObject m.
Proof.
  intros Hf Hs Hp. unfold result. rewrite (calculateData_client_eq w f) by done.
  cbn. unfold first_run_outcome.
  pose proof (plain_fetch_trace (sources (guarded w)) (props (component (guarded w)))
                (state (component (guarded w))) (setState (component (guarded w)))
                f Hp) as Hc.
  fold (fetch_of (guarded w) f) in Hc.
  destruct ((fetch_of (guarded w) f).1.1) as [v|e]; [|by exists JUndefined, ∅].
  destruct (is_mapping v) eqn:Hm; [|by exists JUndefined, ∅].
  apply is_mapping_spec in Hm as (k & m & -> & Hk).
  exists (JObj k m), m. split; [done|]. by destruct k.
Qed.

Lemma updateData_client_inv v w :
  client_inv w →
  (v = JNull ∧ getMeteorData (component w) = None
   ∨ is_Some (getMeteorData (component w))
     ∧ ∃ m, (if is_undefined v then empty_object else v) = JObj PlainObject m) →
  result (updateData v) w = Normal tt ∧ client_inv (after (updateData v) w).
Proof.
  intros (Hinv & Hs & Hnone & Hpl & Hd & Hfl) Hv.
  assert (manager_inv (after (updateData v) w)) as Hinv' by by apply updateData_inv.
  destruct (updateData_frame v w) as (_ & _ & Hs' & _ & _ & _ & Hf' & _).
  destruct Hv as [[-> Hf]|[Hf (m & Hv)]].
  - specialize (Hnone Hf). destruct Hd as [[_ Hd]|(m0 & Hk & _)]; [|congruence].
    unfold result, after in *. rewrite updateData_eq in *.
    unfold updateData_spec in *. rewrite Hnone in *. cbn in *.
    split; [done|]. split; [done|]. split; [done|]. split; [done|].
    split; [done|]. split; [by left|]. done.
  - unfold result, after in *.
    rewrite (updateData_mapping_eq v PlainObject m w Hv) in *.
    cbn [fst snd] in *. split; [done|]. split; [done|]. split; [done|].
    cbn. split; [by intros Hn; rewrite Hn in Hf; destruct Hf|].
    split; [done|].
    assert (∀ key, inherited key = false →
              patched (oldData (manager w)) m (data (component w)) !! key = m !! key)
      as Hnew.
    { intros key Hi. destruct Hd as [[-> ->]|(m0 & -> & Hagree)].
      - by rewrite patched_first.
      - by apply patched_replaces. }
    split; [right; eauto|].
    intros [= Hu] key Hi. rewrite (Hnew key Hi).
    destruct v; try done. cbn in Hv. by injection Hv as <-.
Qed.

Lemma run_event_client_inv e w :
  is_updateData e = false → client_inv w → client_inv (after (run_event e) w).
Proof.
  intros He HK. destruct (merges e) eqn:Hm.
  - destruct e as [|v| |np ns|s v|h]; try done. clear He Hm.
    unfold after, run_event. rewrite componentWillUpdate_eq.
    unfold componentWillUpdate_spec. fold (with_next np ns w).
    set (w1 := with_next np ns w).
    assert (client_inv w1) as HK1.
    { destruct HK as (Hinv & ? & ? & ? & ? & ?). split; [|done].
      by eapply manager_inv_ext; [| |exact Hinv]. }
    destruct HK1 as (Hinv1 & Hs1 & Hn1 & Hpl1 & Hd1 & Hfl1).
    pose proof (calculateData_inv w1 Hinv1) as Hinv2.
    destruct (calculateData_config w1) as (Hs2 & _ & Hf2).
    destruct (calculateData_frame w1) as (_ & _ & Hda & Hfa & _ & Hoa & _).
    assert (∃ v, result calculateData w1 = Normal v
                 ∧ (v = JNull ∧ getMeteorData (component w1) = None
                    ∨ is_Some (getMeteorData (component w1))
                      ∧ ∃ m, (if is_undefined v then empty_object else v)
                             = JObj PlainObject m))
      as (v & Hr & Hv).
    { destruct (getMeteorData (component w1)) as [g|] eqn:Hg.
      - destruct (calculateData_client_value w1 g Hg Hs1 (Hpl1 g eq_refl))
          as (v & m & Hr & Hv).
        exists v. split; [done|]. right. eauto.
      - exists JNull. unfold result. rewrite calculateData_no_fetch by done. eauto. }
    unfold result, after in *. destruct (calculateData w1) as [r w2].
    cbn [fst snd] in *. subst r.
    set (w3 := set_component _ w2).
    assert (client_inv w3) as HK3.
    { split; [by eapply manager_inv_ext; [| |exact Hinv2]|].
      unfold data_is_last_snapshot, w3. cbn. rewrite Hda, Hfa, Hoa, Hs2, Hf2. done. }
    apply updateData_client_inv; [done|]. unfold w3. cbn. by rewrite Hf2.
  - destruct HK as (Hinv & Hs & Hn & Hpl & Hd & Hfl).
    destruct (other_events_frame e w Hinv Hm) as (Hda & Hfa & Hoa).
    destruct (run_event_config e w Hinv) as (Hs' & _ & Hf').
    split; [by apply run_event_inv|].
    unfold data_is_last_snapshot. rewrite Hda, Hfa, Hoa, Hs', Hf'. done.
Qed.

(** X10.  On the client, as long as [updateData] is called by the
    lifecycle hooks only, the fetch function never returns a cursor as the
    snapshot itself, and the objects it returned are left alone afterwards
    (no [stored_snapshot_mutated] in between), [data] is the snapshot that
    the last merge stored, at every key that is not the name of a property
    inherited from [Object.prototype].  In any world that [calculateData],
    [dispose], [componentWillUpdate], changes of sources and flushes lead
    to from the construction of the manager, either nothing was merged yet
    and [data] is empty, or the stored previous snapshot is a plain object
    and [data] has at each such key what that object has; and when the
    failure flag is [true], [data] has no such key. *)
Theorem data_is_the_last_snapshot (mongo : bool) (srcs : gmap nat jsval)
    (f : option fetch) (p s : jsval) (es : list event)
    (Hplain : ∀ g, f = Some g → plain_fetch g)
    (Hes : forallb (λ e, negb (is_updateData e)) es = true) :
  let w := run_events es (fresh_world false mongo srcs f p s) in
  ((oldData (manager w) = JNull ∧ data (component w) = ∅)
   ∨ ∃ m, oldData (manager w) = JObj PlainObject m
          ∧ ∀ key, inherited key = false → data (component w) !! key = m !! key) ∧
  (failedToGetData (component w) = JBool true →
   ∀ key, inherited key = false → data (component w) !! key = None).
Proof.
  intros w.
  assert (client_inv w) as (_ & _ & _ & _ & Hd & Hfl); [|done].
  unfold w. clear w.
  assert (client_inv (fresh_world false mongo srcs f p s)) as H0.
  { split; [apply fresh_world_inv|]. split; [done|]. split; [done|].
    split; [done|]. split; [by left|done]. }
  revert H0. generalize (fresh_world false mongo srcs f p s) as w.
  induction es as [|e es IH]; intros w HK; [done|].
  cbn in Hes. apply andb_true_iff in Hes as [He Hes]. rewrite run_events_cons.
  apply IH; [done|]. apply run_event_client_inv; [|done].
  by destruct (is_updateData e).
Qed.

Lemma count_then_name_plain : plain_fetch count_then_name.
Proof. apply plain_FReadSource. intros v. by apply plain_FReturn. Qed.

Lemma data_is_the_last_snapshot_witness :
  let w := run_events [WillUpdate JNull JNull; SourceChanged 0 (JBool true);
                       Flush 0; WillUpdate JNull JNull]
             (fresh_world false false ∅ (Some count_then_name) JNull JNull) in
  data (component w) = {[ "name" := JStr "a" ]} ∧
  ((oldData (manager w) = JNull ∧ data (component w) = ∅)
   ∨ ∃ m, oldData (manager w) = JObj PlainObject m
          ∧ ∀ key, inherited key = false → data (component w) !! key = m !! key).
Proof.
  split; [by vm_compute|].
  refine (proj1 (data_is_the_last_snapshot false ∅ (Some count_then_name) JNull JNull
    [WillUpdate JNull JNull; SourceChanged 0 (JBool true); Flush 0;
     WillUpdate JNull JNull] _ eq_refl)).
  intros g [= <-]. apply count_then_name_plain.
Defined.

(** ** Mounting and rendering *)

Lemma componentWillMount_eq w :
  componentWillMount w
  = let w0 := set_manager new_manager (set_component (with_data ∅ (component w)) w) in
    match (calculateData w0).1 with
    | Normal v => updateData v (calculateData w0).2
    | Abrupt e => (Abrupt e, (calculateData w0).2)
    end.
Proof.
  unfold componentWillMount.
  cbv [mbind M_bind modify_component modify_manager modify_world]. cbn zeta.
  by destruct (calculateData _) as [[v|e] w2].
Qed.

Lemma spread_lookup kp pm d key :
  spread (JObj kp pm) d !! key
  = match d !! key with Some x => Some x | None => pm !! key end.
Proof.
  unfold spread. cbn [enumerable_entries]. rewrite !merge_entries_map.
  rewrite !lookup_union, lookup_empty.
  by destruct (d !! key), (pm !! key).
Qed.

(** X11.  Mounting and rendering a component made by [connect], on the
    client.  [componentWillMount] returns normally whatever the function
    given to [connect] does; the function is run on [this.props].  If it
    returns a mapping, [data] is that mapping (whatever [data] held
    before), the failure flag is [false], and [render] gives the wrapped
    component the props and the mapping, the mapping's value winning where
    both have a key.  If it throws or returns anything else, [data] is
    empty, the flag is [true] and [render] gives [<span/>]. *)
Theorem connected_mount_render (w : World) (options : connect_options)
    (Hclient : isServer w = false)
    (Hclass : getMeteorData (component w) = Some (class_getMeteorData (connect options))) :
  let w1 := after componentWillMount w in
  let run := result (run_fetch ((expand_options options).1 (props (component w))))
               (guarded w) in
  result componentWillMount w = Normal tt ∧
  (∀ v, run = Normal v → is_mapping v = true →
     data (component w1) = snapshot_props v ∧
     failedToGetData (component w1) = JBool false ∧
     render (component w1)
     = WrappedElement (spread (props (component w)) (snapshot_props v)) ∧
     (∀ kp pm key, props (component w) = JObj kp pm →
        spread (props (component w)) (snapshot_props v) !! key
        = match snapshot_props v !! key with
          | Some x => Some x
          | None => pm !! key
          end)) ∧
  ((∀ v, run = Normal v → is_mapping v = false) →
     data (component w1) = ∅ ∧
     failedToGetData (component w1) = JBool true ∧
     render (component w1) = SpanElement).
Proof.
  intros w1 run.
  set (f := class_getMeteorData (connect options)) in *.
  set (w0 := set_manager new_manager (set_component (with_data ∅ (component w)) w)).
  assert (fetch_of (guarded w0) f = fetch_of (guarded w) f) as Hsame by done.
  assert (run = (fetch_of (guarded w) f).1.1) as Hrun.
  { unfold run, result. rewrite run_fetch_eq. done. }
  assert (componentWillMount w
          = updateData (first_run_outcome run).1 (calculateData_client w0 f).2) as Hm.
  { rewrite componentWillMount_eq. cbn zeta. fold w0.
    rewrite (calculateData_client_eq w0 f) by done.
    change ((calculateData_client w0 f).1)
      with (@Normal jsval (first_run_outcome (fetch_of (guarded w0) f).1.1).1).
    cbn match. by rewrite Hsame, Hrun. }
  assert (props (component w1) = props (component w)) as Hp.
  { unfold w1, after. rewrite Hm.
    destruct (updateData_frame (first_run_outcome run).1 (calculateData_client w0 f).2)
      as (_&_&_&_&_&_&_&Hp&_). unfold after in Hp. by rewrite Hp. }
  split; [|split].
  - unfold result. rewrite Hm, updateData_eq. unfold updateData_spec, first_run_outcome.
    by destruct run as [v|e]; [destruct (is_mapping v)|].
  - intros v Hv Hmap. rewrite Hv in Hm. unfold first_run_outcome in Hm.
    rewrite Hmap in Hm. cbn [fst] in Hm.
    apply is_mapping_spec in Hmap as (k & m & -> & _).
    rewrite (updateData_mapping_eq (JObj k m) k m _ eq_refl) in Hm.
    assert (data (component w1) = m) as Hd.
    { unfold w1, after. rewrite Hm. cbn. apply patched_first. }
    assert (failedToGetData (component w1) = JBool false) as Hfl.
    { unfold w1, after. by rewrite Hm. }
    split; [done|]. split; [done|]. split.
    + unfold render. by rewrite Hfl, Hp, Hd.
    + intros kp pm key ->. apply spread_lookup.
  - intros Hfail.
    assert ((first_run_outcome run).1 = JUndefined) as Hu.
    { unfold first_run_outcome. destruct run as [v|e]; [|done].
      by rewrite (Hfail v eq_refl). }
    rewrite Hu in Hm.
    rewrite (updateData_mapping_eq JUndefined PlainObject ∅ _ eq_refl) in Hm.
    assert (failedToGetData (component w1) = JBool true) as Hfl.
    { unfold w1, after. by rewrite Hm. }
    split; [|split; [done|]].
    + unfold w1, after. rewrite Hm. cbn. apply patched_first.
    + unfold render. by rewrite Hfl.
Qed.

Lemma connected_mount_render_witness :
  let options := OptionsFunction (λ p, FReturn (JObj PlainObject {[ "id" := p ]})) in
  let w := fresh_world false false ∅ (Some (class_getMeteorData (connect options)))
             (JObj PlainObject {[ "id" := JNum 0; "title" := JStr "t" ]}) JNull in
  base (connect options) = ReactPureComponent ∧
  result componentWillMount w = Normal tt.
Proof.
  split; [reflexivity|].
  exact (proj1 (connected_mount_render
    (fresh_world false false ∅
       (Some (class_getMeteorData
                (connect (OptionsFunction (λ p, FReturn (JObj PlainObject {[ "id" := p ]}))))))
       (JObj PlainObject {[ "id" := JNum 0; "title" := JStr "t" ]}) JNull)
    (OptionsFunction (λ p, FReturn (JObj PlainObject {[ "id" := p ]})))
    eq_refl eq_refl)).
Defined.

Example connected_render_example :
  let options := OptionsFunction (λ p, FReturn (JObj PlainObject {[ "id" := JNum 7 ]})) in
  let w := fresh_world false false ∅ (Some (class_getMeteorData (connect options)))
             (JObj PlainObject {[ "id" := JNum 0; "title" := JStr "t" ]}) JNull in
  render (component (after componentWillMount w))
  = WrappedElement {[ "id" := JNum 7; "title" := JStr "t" ]}.
Proof. by vm_compute. Qed.

(** X12.  On the server the fetch function runs unguarded and unlogged:
    [calculateData] writes nothing to the console, leaves the [setState]
    slot alone, and a [setState] call of the function reaches the function
    that the slot holds. *)
Theorem server_mode_unguarded (w : World) (f : fetch)
    (Hserver : isServer w = true) (Hfetch : getMeteorData (component w) = Some f) :
  console (after calculateData w) = console w ∧
  setState (component (after calculateData w)) = setState (component w) ∧
  (∀ arg k handler id,
     f = FSetState arg k handler → setState (component w) = HostFunction id →
     calculateData w
     = run_fetch k
         (set_component
            (with_setStateCalls (setStateCalls (component w) ++ [(id, arg)]) (component w))
            w)).
Proof.
  split; [|split].
  - unfold after. rewrite (calculateData_server_eq w f), run_fetch_eq by done.
    by destruct (world_after_fetch_frame w f) as (_&_&_&_&_&_&?&_).
  - by destruct (calculateData_frame w) as (_&_&_&_&?&_).
  - intros arg k handler id -> Hslot.
    rewrite (calculateData_server_eq w _) by done. cbn [run_fetch].
    destruct w as [sv mg src tr co [p s g d fl st calls fu] mgr].
    cbn in Hslot. subst st. by mrun.
Qed.

Lemma server_mode_unguarded_witness :
  let f := FSetState (JNum 1) (FReturn empty_object) FThrow in
  let w := fresh_world true false ∅ (Some f) JNull JNull in
  setStateCalls (component (after calculateData w)) = [(0%nat, JNum 1)] ∧
  console (after calculateData w) = console w.
Proof.
  split; [reflexivity|].
  exact (proj1 (server_mode_unguarded
    (fresh_world true false ∅ (Some (FSetState (JNum 1) (FReturn empty_object) FThrow))
       JNull JNull)
    (FSetState (JNum 1) (FReturn empty_object) FThrow) eq_refl eq_refl)).
Defined.
